(** * next-image-fallback: the fallback-escalation and retry-with-backoff machines

    A shallow embedding of [src/NextImageFallback.tsx] (component
    [NextImageFallback] and its [AlternativeFallbackPlaceholder]) and of the
    retry module (function [calculateDelay], component [RetryImage], hook
    [useImageRetry]).

    Conventions of the embedding.
    - A React component is a record of props, a record of state cells
      ([useState]) and refs ([useRef]), and one function per handler.  A
      handler reads the state of the render it was created in and returns the
      next committed state.  Every event is handled against the committed state
      of the previous one.
    - Callbacks supplied by the caller are optional props.  A prop records
      whether the callback is supplied; an invocation is logged as a [Call] in
      the order the handler makes it.
    - JavaScript numbers that count pixels, attempts or milliseconds are
      integers of [Z].
    - [setTimeout] and [clearTimeout] act on an explicit list of pending
      timers owned by the host. *)

From Stdlib Require Import ZArith List String Ascii Bool Lia.
Import ListNotations.

Open Scope Z_scope.

(** ** JavaScript values used by the components *)

(** [ImageProps['src']]: a URL string, or a statically imported image, an
    object compared by reference. *)
Inductive ImageSrc : Type :=
| UrlSrc (url : string)
| StaticSrc (ref : nat).

(** Strict equality [===] on sources. *)
Definition src_eqb (a b : ImageSrc) : bool :=
  match a, b with
  | UrlSrc u, UrlSrc v => String.eqb u v
  | StaticSrc r, StaticSrc s => Nat.eqb r s
  | _, _ => false
  end.

(** Truthiness: of strings only the empty one is falsy, objects are truthy. *)
Definition src_truthy (s : ImageSrc) : bool :=
  match s with
  | UrlSrc u => negb (String.eqb u EmptyString)
  | StaticSrc _ => true
  end.

(** An optional prop: [None] is [undefined]. *)
Definition truthy_src (o : option ImageSrc) : bool :=
  match o with
  | Some s => src_truthy s
  | None => false
  end.

(** [currentSrc !== fallbackSrc], with [fallbackSrc] possibly [undefined]. *)
Definition src_neq_opt (cur : ImageSrc) (o : option ImageSrc) : bool :=
  match o with
  | Some f => negb (src_eqb cur f)
  | None => true
  end.

(** The width and height props: [number | `${number}`]. *)
Inductive Dimension : Type :=
| NumDim (n : Z)
| StrDim (s : string).

Definition dim_truthy (d : Dimension) : bool :=
  match d with
  | NumDim n => negb (n =? 0)
  | StrDim s => negb (String.eqb s EmptyString)
  end.

(** [d || fallback] on an optional dimension. *)
Definition dim_or (d : option Dimension) (fallback : Dimension) : Dimension :=
  match d with
  | Some v => if dim_truthy v then v else fallback
  | None => fallback
  end.

(** [s || fallback] on an optional string, and a defaulted destructured prop
    [s = fallback] (only [undefined] takes the default). *)
Definition str_default (s : option string) (fallback : string) : string :=
  match s with
  | Some v => v
  | None => fallback
  end.

(** ** The fallback-escalation component, [NextImageFallback] *)

Module Fallback.

Inductive AlternativeFallbackType : Type := gradient | waves | mono.

Definition DEFAULT_PRIMARY_COLOR : string := "#6366f1".
Definition DEFAULT_SECONDARY_COLOR : string := "#8b5cf6".
Definition DEFAULT_ERROR_MESSAGE : string := "Image unavailable".
Definition DEFAULT_TEXT_COLOR : string := "#ffffff".

Record Props : Type := mkProps {
  src : ImageSrc;
  fallbackSrc : option ImageSrc;
  onFallback : bool;
  onError : bool;
  onLoadingComplete : bool;
  alternativeFallback : option AlternativeFallbackType;
  primaryAltColor : option string;
  secondaryAltColor : option string;
  altErrorMessage : option string;
  altTextColor : option string;
  onAlternativeFallback : bool;
  width : option Dimension;
  height : option Dimension
}.

(** The three [useState] cells. *)
Record State : Type := mkState {
  currentSrc : ImageSrc;
  hasTriedFallback : bool;
  showAlternativeFallback : bool
}.

(** Invocations of the caller's callbacks. *)
Inductive Call : Type :=
| CallOnFallback
| CallOnAlternativeFallback
| CallOnError
| CallOnLoadingComplete (naturalWidth naturalHeight : Z).

(** [if (cb) cb(...)]. *)
Definition invoke (supplied : bool) (c : Call) : list Call :=
  if supplied then [c] else [].

Definition isSet {A : Type} (o : option A) : bool :=
  match o with
  | Some _ => true
  | None => false
  end.

(** State on mount; the [useEffect] on [src] writes the same values whenever
    the [src] prop changes. *)
Definition init (p : Props) : State :=
  {| currentSrc := src p;
     hasTriedFallback := false;
     showAlternativeFallback := false |}.

Definition srcChanged (p' : Props) (_ : State) : State := init p'.

(** The state setters of [useState]. *)
Definition setCurrentSrc (v : ImageSrc) (st : State) : State :=
  {| currentSrc := v;
     hasTriedFallback := hasTriedFallback st;
     showAlternativeFallback := showAlternativeFallback st |}.

Definition setHasTriedFallback (v : bool) (st : State) : State :=
  {| currentSrc := currentSrc st;
     hasTriedFallback := v;
     showAlternativeFallback := showAlternativeFallback st |}.

Definition setShowAlternativeFallback (v : bool) (st : State) : State :=
  {| currentSrc := currentSrc st;
     hasTriedFallback := hasTriedFallback st;
     showAlternativeFallback := v |}.

(** [setCurrentSrc(fallbackSrc)]: under its guard [fallbackSrc] is defined. *)
Definition setCurrentSrcToFallback (p : Props) (st : State) : State :=
  match fallbackSrc p with
  | Some f => setCurrentSrc f st
  | None => st
  end.

Definition handleError (p : Props) (st : State) : State * list Call :=
  let '(st', calls) :=
    if truthy_src (fallbackSrc p) && negb (hasTriedFallback st)
       && src_neq_opt (currentSrc st) (fallbackSrc p)
    then
      (setHasTriedFallback true (setCurrentSrcToFallback p st),
       invoke (onFallback p) CallOnFallback)
    else if hasTriedFallback st && isSet (alternativeFallback p)
    then
      (setShowAlternativeFallback true st,
       invoke (onAlternativeFallback p) CallOnAlternativeFallback)
    else if negb (truthy_src (fallbackSrc p)) && isSet (alternativeFallback p)
    then
      (setShowAlternativeFallback true st,
       invoke (onAlternativeFallback p) CallOnAlternativeFallback)
    else (st, [])
  in (st', calls ++ invoke (onError p) CallOnError).

Definition handleLoadingComplete (p : Props) (st : State)
    (naturalWidth naturalHeight : Z) : State * list Call :=
  if (naturalWidth =? 0) && truthy_src (fallbackSrc p)
     && negb (hasTriedFallback st)
     && src_neq_opt (currentSrc st) (fallbackSrc p)
  then
    (setHasTriedFallback true (setCurrentSrcToFallback p st),
     invoke (onFallback p) CallOnFallback)
  else if (naturalWidth =? 0) && hasTriedFallback st
          && isSet (alternativeFallback p)
  then
    (setShowAlternativeFallback true st,
     invoke (onAlternativeFallback p) CallOnAlternativeFallback)
  else
    (st, invoke (onLoadingComplete p)
                (CallOnLoadingComplete naturalWidth naturalHeight)).

(** *** Rendering *)

(** What [AlternativeFallbackPlaceholder] renders, as far as it depends on its
    props: the container keeps its type, colours and dimensions; the icon and
    the text are conditional children. *)
Record Placeholder : Type := mkPlaceholder {
  ph_type : AlternativeFallbackType;
  ph_primaryColor : string;
  ph_secondaryColor : string;
  ph_textColor : string;
  ph_errorMessage : string;
  ph_width : Dimension;
  ph_height : Dimension;
  showIcon : bool;
  showText : bool;
  iconSize : string;
  fontSize : string
}.

Definition AlternativeFallbackPlaceholder (type : AlternativeFallbackType)
    (primaryColor secondaryColor textColor errorMessage : string)
    (width height : Dimension) : Placeholder :=
  {| ph_type := type;
     ph_primaryColor := primaryColor;
     ph_secondaryColor := secondaryColor;
     ph_textColor := textColor;
     ph_errorMessage := errorMessage;
     ph_width := width;
     ph_height := height;
     showIcon := match width with NumDim n => 60 <=? n | StrDim _ => true end;
     showText := match width with NumDim n => 80 <=? n | StrDim _ => true end;
     iconSize :=
       match width with
       | NumDim n => if n <? 100 then "16" else "24"
       | StrDim _ => "24"
       end;
     fontSize :=
       match width with
       | NumDim n => if n <? 100 then "10px" else "14px"
       | StrDim _ => "14px"
       end |}.

(** The component renders either the placeholder or the host [Image]; only
    the latter carries the two handlers. *)
Inductive View : Type :=
| PlaceholderView (ph : Placeholder)
| ImageView (src : ImageSrc) (width height : option Dimension).

Definition render (p : Props) (st : State) : View :=
  match showAlternativeFallback st, alternativeFallback p with
  | true, Some type =>
      PlaceholderView
        (AlternativeFallbackPlaceholder type
           (str_default (primaryAltColor p) DEFAULT_PRIMARY_COLOR)
           (str_default (secondaryAltColor p) DEFAULT_SECONDARY_COLOR)
           (str_default (altTextColor p) DEFAULT_TEXT_COLOR)
           (str_default (altErrorMessage p) DEFAULT_ERROR_MESSAGE)
           (dim_or (width p) (NumDim 100))
           (dim_or (height p) (NumDim 100)))
  | _, _ => ImageView (currentSrc st) (width p) (height p)
  end.

(** *** Events *)

(** The host [Image] reports an error or a completed load.  While the
    placeholder is rendered there is no [Image] and no handler to reach. *)
Inductive Event : Type :=
| EvError
| EvLoadingComplete (naturalWidth naturalHeight : Z).

Definition deliver (p : Props) (st : State) (ev : Event) : State * list Call :=
  match render p st with
  | PlaceholderView _ => (st, [])
  | ImageView _ _ _ =>
      match ev with
      | EvError => handleError p st
      | EvLoadingComplete w h => handleLoadingComplete p st w h
      end
  end.

(** One source-lifetime: the props stay as they are and events arrive one
    after the other. *)
Fixpoint run (p : Props) (st : State) (evs : list Event) : State * list Call :=
  match evs with
  | [] => (st, [])
  | ev :: rest =>
      let '(st1, c1) := deliver p st ev in
      let '(st2, c2) := run p st1 rest in
      (st2, c1 ++ c2)
  end.

(** The stage of the escalation read off the state cells. *)
Inductive Stage : Type := Primary | UsingFallback | ShowingStaticPlaceholder.

Definition stage (st : State) : Stage :=
  if showAlternativeFallback st then ShowingStaticPlaceholder
  else if hasTriedFallback st then UsingFallback
  else Primary.

Definition isOnFallback (c : Call) : bool :=
  match c with CallOnFallback => true | _ => false end.

Definition isOnAlternativeFallback (c : Call) : bool :=
  match c with CallOnAlternativeFallback => true | _ => false end.

Definition isOnError (c : Call) : bool :=
  match c with CallOnError => true | _ => false end.

Definition isOnLoadingComplete (c : Call) : bool :=
  match c with CallOnLoadingComplete _ _ => true | _ => false end.

Definition times (f : Call -> bool) (calls : list Call) : nat :=
  List.length (filter f calls).

(** Whether the host [Image], and with it the handlers, is rendered. *)
Definition imageRendered (p : Props) (st : State) : bool :=
  match render p st with
  | PlaceholderView _ => false
  | ImageView _ _ _ => true
  end.

(** A reported load failure: an error, or a completed load of width zero. *)
Definition isFailure (ev : Event) : bool :=
  match ev with
  | EvError => true
  | EvLoadingComplete w _ => w =? 0
  end.

(** The notifications of the machine itself, as opposed to the pass-through
    of the caller's [onError] and [onLoadingComplete]. *)
Definition isInternal (c : Call) : bool :=
  isOnFallback c || isOnAlternativeFallback c.

Definition internal (r : State * list Call) : State * list Call :=
  (fst r, filter isInternal (snd r)).

(** Props as the tests write them: every callback supplied, the decorative
    props left to their defaults. *)
Definition props (s : string) (fallback : option string)
    (alternative : option AlternativeFallbackType) (w h : option Dimension)
    : Props :=
  {| src := UrlSrc s;
     fallbackSrc := option_map UrlSrc fallback;
     onFallback := true;
     onError := true;
     onLoadingComplete := true;
     alternativeFallback := alternative;
     primaryAltColor := None;
     secondaryAltColor := None;
     altErrorMessage := None;
     altTextColor := None;
     onAlternativeFallback := true;
     width := w;
     height := h |}.

End Fallback.

(** ** Timers of the host *)

Module Timers.

Record Timer : Type := mkTimer {
  timerId : nat;
  timerDelay : Z
}.

(** The timers that are scheduled and have neither fired nor been cleared,
    oldest first, and the next handle [setTimeout] hands out.  Handles are
    positive, hence truthy. *)
Record Host : Type := mkHost {
  pending : list Timer;
  nextTimer : nat
}.

Definition idle : Host := {| pending := []; nextTimer := 1 |}.

Definition setTimeout (delay : Z) (h : Host) : nat * Host :=
  (nextTimer h,
   {| pending := pending h ++ [{| timerId := nextTimer h; timerDelay := delay |}];
      nextTimer := S (nextTimer h) |}).

Definition drop (id : nat) (ts : list Timer) : list Timer :=
  filter (fun t => negb (Nat.eqb (timerId t) id)) ts.

Definition clearTimeout (id : nat) (h : Host) : Host :=
  {| pending := drop id (pending h); nextTimer := nextTimer h |}.

(** A timer can fire only while it is pending. *)
Definition isPending (id : nat) (h : Host) : bool :=
  existsb (fun t => Nat.eqb (timerId t) id) (pending h).

(** Firing takes the timer off the list. *)
Definition fired (id : nat) (h : Host) : Host := clearTimeout id h.

Definition outstanding (h : Host) : nat := List.length (pending h).

End Timers.

(** ** Retry with backoff: [calculateDelay], [RetryImage], [useImageRetry] *)

Module Retry.

Import Timers.

(** [RetryConfig]: every field optional. *)
Record RetryConfig : Type := mkRetryConfig {
  cfg_maxRetries : option Z;
  cfg_retryDelay : option Z;
  cfg_exponentialBackoff : option bool;
  cfg_maxDelay : option Z
}.

(** [Required<RetryConfig>]. *)
Record Config : Type := mkConfig {
  maxRetries : Z;
  retryDelay : Z;
  exponentialBackoff : bool;
  maxDelay : Z
}.

Definition DEFAULT_RETRY_CONFIG : Config :=
  {| maxRetries := 3;
     retryDelay := 1000;
     exponentialBackoff := true;
     maxDelay := 10000 |}.

Definition noConfig : RetryConfig :=
  {| cfg_maxRetries := None;
     cfg_retryDelay := None;
     cfg_exponentialBackoff := None;
     cfg_maxDelay := None |}.

Definition orElse {A : Type} (o : option A) (d : A) : A :=
  match o with
  | Some v => v
  | None => d
  end.

(** [{ ...DEFAULT_RETRY_CONFIG, ...retryConfig }]. *)
Definition mergeConfig (d : Config) (c : RetryConfig) : Config :=
  {| maxRetries := orElse (cfg_maxRetries c) (maxRetries d);
     retryDelay := orElse (cfg_retryDelay c) (retryDelay d);
     exponentialBackoff :=
       orElse (cfg_exponentialBackoff c) (exponentialBackoff d);
     maxDelay := orElse (cfg_maxDelay c) (maxDelay d) |}.

(** [Math.pow] and [Math.min] on integers, the exponent not negative. *)
Definition Math_pow (base exponent : Z) : Z := base ^ exponent.
Definition Math_min (a b : Z) : Z := if a <? b then a else b.

Definition calculateDelay (attempt baseDelay : Z) (exponential : bool)
    (maxDelay : Z) : Z :=
  if negb exponential then baseDelay
  else
    let delay := baseDelay * Math_pow 2 (attempt - 1) in
    Math_min delay maxDelay.

(** [originalSrc.current?.includes('?')]. *)
Fixpoint includesQuestionMark (s : string) : bool :=
  match s with
  | EmptyString => false
  | String c rest => Ascii.eqb c "?"%char || includesQuestionMark rest
  end.

(** A string or [undefined] inside a template literal. *)
Definition interpolate (o : option string) : string :=
  match o with
  | Some s => s
  | None => "undefined"%string
  end.

(** The source the timer callback sets: the original source with a
    [_retry] query parameter, [now] being the digits of [Date.now()]. *)
Definition retrySrc (original : option string) (now : string) : string :=
  let separator :=
    match original with
    | Some s => if includesQuestionMark s then "&"%string else "?"%string
    | None => "?"%string
    end in
  (interpolate original ++ separator ++ "_retry=" ++ now)%string.

(** [typeof src === 'string' ? src : undefined]. *)
Definition stringSrc (s : ImageSrc) : option string :=
  match s with
  | UrlSrc u => Some u
  | StaticSrc _ => None
  end.

Definition opt_string_eqb (a b : option string) : bool :=
  match a, b with
  | Some x, Some y => String.eqb x y
  | None, None => true
  | _, _ => false
  end.

Definition truthy_string (o : option string) : bool :=
  match o with
  | Some s => negb (String.eqb s EmptyString)
  | None => false
  end.

Record RetryState : Type := mkRetryState {
  rs_attempts : Z;
  rs_isRetrying : bool;
  rs_hasLoaded : bool;
  rs_hasExhaustedRetries : bool
}.

(** What a handler does to the outside: the caller's callbacks and the
    timers it starts. *)
Inductive Effect : Type :=
| CallOnError (message : string) (retryState : RetryState)
| CallOnRetry (attempt maxRetries : Z)
| CallOnRetriesExhausted
| CallOnSuccess (attemptNumber : Z)
| StartTimer (id : nat) (delay : Z)
| StopTimer (id : nat).

Definition invoke (supplied : bool) (e : Effect) : list Effect :=
  if supplied then [e] else [].

Definition isRetriesExhausted (e : Effect) : bool :=
  match e with CallOnRetriesExhausted => true | _ => false end.

(** The delays of the timers started, in order. *)
Fixpoint scheduledDelays (es : list Effect) : list Z :=
  match es with
  | [] => []
  | StartTimer _ d :: rest => d :: scheduledDelays rest
  | _ :: rest => scheduledDelays rest
  end.

Definition times (f : Effect -> bool) (es : list Effect) : nat :=
  List.length (filter f es).

End Retry.

(** *** The component [RetryImage] *)

Module RetryImage.

Import Timers Retry.

Record Props : Type := mkProps {
  src : ImageSrc;
  fallbackSrc : option string;
  retryConfig : RetryConfig;
  onError : bool;
  onRetry : bool;
  onRetriesExhausted : bool;
  onSuccess : bool;
  loadingComponent : bool;
  showRetryIndicator : bool;
  retryIndicator : bool
}.

(** The five [useState] cells, the two refs, and the timers of the host. *)
Record State : Type := mkState {
  currentSrc : option string;
  attempts : Z;
  isRetrying : bool;
  hasLoaded : bool;
  hasExhaustedRetries : bool;
  timeoutRef : option nat;
  originalSrc : option string;
  host : Host
}.

Definition config (p : Props) : Config :=
  mergeConfig DEFAULT_RETRY_CONFIG (retryConfig p).

Definition mount (p : Props) : State :=
  {| currentSrc := stringSrc (src p);
     attempts := 0;
     isRetrying := false;
     hasLoaded := false;
     hasExhaustedRetries := false;
     timeoutRef := None;
     originalSrc := stringSrc (src p);
     host := idle |}.

Definition withSrc (s : ImageSrc) (p : Props) : Props :=
  {| src := s;
     fallbackSrc := fallbackSrc p;
     retryConfig := retryConfig p;
     onError := onError p;
     onRetry := onRetry p;
     onRetriesExhausted := onRetriesExhausted p;
     onSuccess := onSuccess p;
     loadingComponent := loadingComponent p;
     showRetryIndicator := showRetryIndicator p;
     retryIndicator := retryIndicator p |}.

(** The effect on [src]: "Update original src when prop changes". *)
Definition srcEffect (p : Props) (st : State) : State :=
  let newSrc := stringSrc (src p) in
  if negb (opt_string_eqb newSrc (originalSrc st)) then
    {| currentSrc := newSrc;
       attempts := 0;
       isRetrying := false;
       hasLoaded := false;
       hasExhaustedRetries := false;
       timeoutRef := timeoutRef st;
       originalSrc := newSrc;
       host := host st |}
  else st.

(** The cleanup of the mount effect: "Cleanup timeout on unmount". *)
Definition unmountCleanup (st : State) : State * list Effect :=
  match timeoutRef st with
  | Some id =>
      ({| currentSrc := currentSrc st;
          attempts := attempts st;
          isRetrying := isRetrying st;
          hasLoaded := hasLoaded st;
          hasExhaustedRetries := hasExhaustedRetries st;
          timeoutRef := timeoutRef st;
          originalSrc := originalSrc st;
          host := clearTimeout id (host st) |},
       [StopTimer id])
  | None => (st, [])
  end.

(** The callback handed to [setTimeout] in [handleError]. *)
Definition timerCallback (now : string) (st : State) : State :=
  {| currentSrc := Some (retrySrc (originalSrc st) now);
     attempts := attempts st;
     isRetrying := false;
     hasLoaded := hasLoaded st;
     hasExhaustedRetries := hasExhaustedRetries st;
     timeoutRef := timeoutRef st;
     originalSrc := originalSrc st;
     host := host st |}.

Definition handleError (p : Props) (st : State) : State * list Effect :=
  let newAttempts := attempts st + 1 in
  let retryState :=
    {| rs_attempts := newAttempts;
       rs_isRetrying := false;
       rs_hasLoaded := false;
       rs_hasExhaustedRetries := maxRetries (config p) <=? newAttempts |} in
  let reported :=
    invoke (onError p)
      (CallOnError
         ("Image failed to load: " ++ interpolate (currentSrc st))%string
         retryState) in
  if newAttempts <? maxRetries (config p) then
    let delay :=
      calculateDelay newAttempts (retryDelay (config p))
        (exponentialBackoff (config p)) (maxDelay (config p)) in
    let '(id, h) := setTimeout delay (host st) in
    ({| currentSrc := currentSrc st;
        attempts := newAttempts;
        isRetrying := true;
        hasLoaded := hasLoaded st;
        hasExhaustedRetries := hasExhaustedRetries st;
        timeoutRef := Some id;
        originalSrc := originalSrc st;
        host := h |},
     reported
       ++ invoke (onRetry p) (CallOnRetry newAttempts (maxRetries (config p)))
       ++ [StartTimer id delay])
  else
    ({| currentSrc :=
          if truthy_string (fallbackSrc p) then fallbackSrc p
          else currentSrc st;
        attempts := newAttempts;
        isRetrying := isRetrying st;
        hasLoaded := hasLoaded st;
        hasExhaustedRetries := true;
        timeoutRef := timeoutRef st;
        originalSrc := originalSrc st;
        host := host st |},
     reported ++ invoke (onRetriesExhausted p) CallOnRetriesExhausted).

Definition handleLoad (p : Props) (st : State) : State * list Effect :=
  ({| currentSrc := currentSrc st;
      attempts := attempts st;
      isRetrying := false;
      hasLoaded := true;
      hasExhaustedRetries := hasExhaustedRetries st;
      timeoutRef := timeoutRef st;
      originalSrc := originalSrc st;
      host := host st |},
   invoke (onSuccess p) (CallOnSuccess (attempts st))).

(** The component renders the caller's loading component while retrying, if
    there is one, and otherwise the host [Image] with the two handlers. *)
Inductive View : Type :=
| LoadingView
| ImageView (imageSrc : ImageSrc) (indicator : bool).

Definition render (p : Props) (st : State) : View :=
  if isRetrying st && loadingComponent p then LoadingView
  else
    ImageView
      (match currentSrc st with
       | Some s => if String.eqb s EmptyString then src p else UrlSrc s
       | None => src p
       end)
      (showRetryIndicator p && isRetrying st).

Inductive Event : Type :=
| EvError
| EvLoad
| EvTimer (id : nat) (now : string)
| EvSrc (newSrc : ImageSrc).

Definition fire (id : nat) (now : string) (st : State) : State :=
  if isPending id (host st) then
    timerCallback now
      {| currentSrc := currentSrc st;
         attempts := attempts st;
         isRetrying := isRetrying st;
         hasLoaded := hasLoaded st;
         hasExhaustedRetries := hasExhaustedRetries st;
         timeoutRef := timeoutRef st;
         originalSrc := originalSrc st;
         host := fired id (host st) |}
  else st.

Definition step (ps : Props * State) (ev : Event)
    : (Props * State) * list Effect :=
  let '(p, st) := ps in
  match ev with
  | EvError =>
      match render p st with
      | LoadingView => (ps, [])
      | ImageView _ _ => let '(st', es) := handleError p st in ((p, st'), es)
      end
  | EvLoad =>
      match render p st with
      | LoadingView => (ps, [])
      | ImageView _ _ => let '(st', es) := handleLoad p st in ((p, st'), es)
      end
  | EvTimer id now => ((p, fire id now st), [])
  | EvSrc s => ((withSrc s p, srcEffect (withSrc s p) st), [])
  end.

Fixpoint run (ps : Props * State) (evs : list Event)
    : (Props * State) * list Effect :=
  match evs with
  | [] => (ps, [])
  | ev :: rest =>
      let '(ps1, e1) := step ps ev in
      let '(ps2, e2) := run ps1 rest in
      (ps2, e1 ++ e2)
  end.

(** Events that leave the requested source as it is. *)
Definition sameSource (ev : Event) : bool :=
  match ev with
  | EvSrc _ => false
  | _ => true
  end.

Definition final (p : Props) (evs : list Event) : State :=
  snd (fst (run (p, mount p) evs)).

Definition effects (p : Props) (evs : list Event) : list Effect :=
  snd (run (p, mount p) evs).

(** Props that leave everything to the defaults. *)
Definition plain (url : string) : Props :=
  {| src := UrlSrc url;
     fallbackSrc := None;
     retryConfig := noConfig;
     onError := true;
     onRetry := true;
     onRetriesExhausted := true;
     onSuccess := true;
     loadingComponent := false;
     showRetryIndicator := true;
     retryIndicator := false |}.

(** The relation of the exhausted flag to the attempt count. *)
Definition exhaustedAtMax (p : Props) (st : State) : Prop :=
  hasExhaustedRetries st = true <-> maxRetries (config p) <= attempts st.

(** Three failures, the timer of each retry firing before the next one. *)
Definition threeFailures (now1 now2 : string) : list Event :=
  [EvError; EvTimer 1 now1; EvError; EvTimer 2 now2; EvError].

End RetryImage.

(** *** The hook [useImageRetry] *)

Module UseImageRetry.

Import Timers Retry.

Record State : Type := mkState {
  src : string;
  attempts : Z;
  isRetrying : bool;
  hasLoaded : bool;
  hasExhaustedRetries : bool;
  error : option string;
  originalSrc : string;
  timeoutRef : option nat;
  host : Host
}.

Definition finalConfig (c : RetryConfig) : Config :=
  mergeConfig DEFAULT_RETRY_CONFIG c.

Definition mount (initialSrc : string) : State :=
  {| src := initialSrc;
     attempts := 0;
     isRetrying := false;
     hasLoaded := false;
     hasExhaustedRetries := false;
     error := None;
     originalSrc := initialSrc;
     timeoutRef := None;
     host := idle |}.

Definition reset (st : State) : State :=
  {| src := originalSrc st;
     attempts := 0;
     isRetrying := false;
     hasLoaded := false;
     hasExhaustedRetries := false;
     error := None;
     originalSrc := originalSrc st;
     timeoutRef := timeoutRef st;
     host := host st |}.

Definition timerCallback (now : string) (st : State) : State :=
  {| src := retrySrc (Some (originalSrc st)) now;
     attempts := attempts st;
     isRetrying := false;
     hasLoaded := hasLoaded st;
     hasExhaustedRetries := hasExhaustedRetries st;
     error := error st;
     originalSrc := originalSrc st;
     timeoutRef := timeoutRef st;
     host := host st |}.

(** [retry] returns whether a retry was scheduled. *)
Definition retry (c : RetryConfig) (st : State)
    : (bool * State) * list Effect :=
  let newAttempts := attempts st + 1 in
  if maxRetries (finalConfig c) <=? newAttempts then
    ((false,
      {| src := src st;
         attempts := attempts st;
         isRetrying := isRetrying st;
         hasLoaded := hasLoaded st;
         hasExhaustedRetries := true;
         error := error st;
         originalSrc := originalSrc st;
         timeoutRef := timeoutRef st;
         host := host st |}), [])
  else
    let delay :=
      calculateDelay newAttempts (retryDelay (finalConfig c))
        (exponentialBackoff (finalConfig c)) (maxDelay (finalConfig c)) in
    let '(id, h) := setTimeout delay (host st) in
    ((true,
      {| src := src st;
         attempts := newAttempts;
         isRetrying := true;
         hasLoaded := hasLoaded st;
         hasExhaustedRetries := hasExhaustedRetries st;
         error := error st;
         originalSrc := originalSrc st;
         timeoutRef := Some id;
         host := h |}), [StartTimer id delay]).

Definition setError (e : option string) (st : State) : State :=
  {| src := src st;
     attempts := attempts st;
     isRetrying := isRetrying st;
     hasLoaded := hasLoaded st;
     hasExhaustedRetries := hasExhaustedRetries st;
     error := e;
     originalSrc := originalSrc st;
     timeoutRef := timeoutRef st;
     host := host st |}.

Definition handleError (c : RetryConfig) (err : option string) (st : State)
    : State * list Effect :=
  let '((_, st'), es) :=
    retry c (setError (Some (orElse err "Image failed to load"%string)) st) in
  (st', es).

Definition handleLoad (st : State) : State :=
  {| src := src st;
     attempts := attempts st;
     isRetrying := false;
     hasLoaded := true;
     hasExhaustedRetries := hasExhaustedRetries st;
     error := None;
     originalSrc := originalSrc st;
     timeoutRef := timeoutRef st;
     host := host st |}.

Definition unmountCleanup (st : State) : State * list Effect :=
  match timeoutRef st with
  | Some id =>
      ({| src := src st;
          attempts := attempts st;
          isRetrying := isRetrying st;
          hasLoaded := hasLoaded st;
          hasExhaustedRetries := hasExhaustedRetries st;
          error := error st;
          originalSrc := originalSrc st;
          timeoutRef := timeoutRef st;
          host := clearTimeout id (host st) |},
       [StopTimer id])
  | None => (st, [])
  end.

(** What the owner of the hook and the host can do to it. *)
Inductive Event : Type :=
| EvHandleError (err : option string)
| EvHandleLoad
| EvRetry
| EvReset
| EvTimer (id : nat) (now : string).

Definition fire (id : nat) (now : string) (st : State) : State :=
  if isPending id (host st) then
    timerCallback now
      {| src := src st;
         attempts := attempts st;
         isRetrying := isRetrying st;
         hasLoaded := hasLoaded st;
         hasExhaustedRetries := hasExhaustedRetries st;
         error := error st;
         originalSrc := originalSrc st;
         timeoutRef := timeoutRef st;
         host := fired id (host st) |}
  else st.

Definition step (c : RetryConfig) (st : State) (ev : Event)
    : State * list Effect :=
  match ev with
  | EvHandleError err => handleError c err st
  | EvHandleLoad => (handleLoad st, [])
  | EvRetry => let '((_, st'), es) := retry c st in (st', es)
  | EvReset => (reset st, [])
  | EvTimer id now => (fire id now st, [])
  end.

Fixpoint run (c : RetryConfig) (st : State) (evs : list Event)
    : State * list Effect :=
  match evs with
  | [] => (st, [])
  | ev :: rest =>
      let '(st1, e1) := step c st ev in
      let '(st2, e2) := run c st1 rest in
      (st2, e1 ++ e2)
  end.

Definition notReset (ev : Event) : bool :=
  match ev with
  | EvReset => false
  | _ => true
  end.

End UseImageRetry.

(** ** The fallback component across source changes *)

Module FallbackLifetimes.

Import Fallback.

Definition withSrc (s : ImageSrc) (p : Props) : Props :=
  {| src := s;
     fallbackSrc := fallbackSrc p;
     onFallback := onFallback p;
     onError := onError p;
     onLoadingComplete := onLoadingComplete p;
     alternativeFallback := alternativeFallback p;
     primaryAltColor := primaryAltColor p;
     secondaryAltColor := secondaryAltColor p;
     altErrorMessage := altErrorMessage p;
     altTextColor := altTextColor p;
     onAlternativeFallback := onAlternativeFallback p;
     width := width p;
     height := height p |}.

(** What reaches a mounted component: an event of the host [Image], or a
    render with another [src] prop.  The effect on [src] runs only when the
    prop differs from the one of the previous render. *)
Inductive Input : Type :=
| FromImage (ev : Event)
| NewSrc (s : ImageSrc).

Definition feed (ps : Props * State) (i : Input)
    : (Props * State) * list Call :=
  let '(p, st) := ps in
  match i with
  | FromImage ev => let '(st', calls) := deliver p st ev in ((p, st'), calls)
  | NewSrc s =>
      if src_eqb s (src p) then (ps, [])
      else ((withSrc s p, srcChanged (withSrc s p) st), [])
  end.

Fixpoint session (ps : Props * State) (inputs : list Input)
    : (Props * State) * list Call :=
  match inputs with
  | [] => (ps, [])
  | i :: rest =>
      let '(ps1, c1) := feed ps i in
      let '(ps2, c2) := session ps1 rest in
      (ps2, c1 ++ c2)
  end.



(** The order of the stages. *)
Definition rank (s : Stage) : nat :=
  match s with
  | Primary => 0
  | UsingFallback => 1
  | ShowingStaticPlaceholder => 2
  end.

End FallbackLifetimes.

(** ** The component before the placeholder was added

    The earlier [NextImageFallback], with [fallbackSrc] and [onFallback]
    only. *)

Module Legacy.

Record Props : Type := mkProps {
  src : ImageSrc;
  fallbackSrc : option ImageSrc;
  onFallback : bool;
  onError : bool;
  onLoadingComplete : bool
}.

Record State : Type := mkState {
  currentSrc : ImageSrc;
  hasTriedFallback : bool
}.

Definition init (p : Props) : State :=
  {| currentSrc := src p; hasTriedFallback := false |}.

(** [setCurrentSrc(fallbackSrc); setHasTriedFallback(true)]; under its guard
    [fallbackSrc] is defined. *)
Definition switched (p : Props) (st : State) : State :=
  match fallbackSrc p with
  | Some f => {| currentSrc := f; hasTriedFallback := true |}
  | None => {| currentSrc := currentSrc st; hasTriedFallback := true |}
  end.

Definition handleError (p : Props) (st : State)
    : State * list Fallback.Call :=
  let '(st', calls) :=
    if truthy_src (fallbackSrc p) && negb (hasTriedFallback st)
       && src_neq_opt (currentSrc st) (fallbackSrc p)
    then (switched p st, Fallback.invoke (onFallback p) Fallback.CallOnFallback)
    else (st, [])
  in (st', calls ++ Fallback.invoke (onError p) Fallback.CallOnError).

Definition handleLoadingComplete (p : Props) (st : State)
    (naturalWidth naturalHeight : Z) : State * list Fallback.Call :=
  if (naturalWidth =? 0) && truthy_src (fallbackSrc p)
     && negb (hasTriedFallback st)
     && src_neq_opt (currentSrc st) (fallbackSrc p)
  then (switched p st, Fallback.invoke (onFallback p) Fallback.CallOnFallback)
  else
    (st, Fallback.invoke (onLoadingComplete p)
           (Fallback.CallOnLoadingComplete naturalWidth naturalHeight)).

(** The earlier component always renders the host [Image]. *)
Definition deliver (p : Props) (st : State) (ev : Fallback.Event)
    : State * list Fallback.Call :=
  match ev with
  | Fallback.EvError => handleError p st
  | Fallback.EvLoadingComplete w h => handleLoadingComplete p st w h
  end.

Fixpoint run (p : Props) (st : State) (evs : list Fallback.Event)
    : State * list Fallback.Call :=
  match evs with
  | [] => (st, [])
  | ev :: rest =>
      let '(st1, c1) := deliver p st ev in
      let '(st2, c2) := run p st1 rest in
      (st2, c1 ++ c2)
  end.

(** The props and the state of the current component seen by the earlier
    one. *)
Definition ofProps (p : Fallback.Props) : Props :=
  {| src := Fallback.src p;
     fallbackSrc := Fallback.fallbackSrc p;
     onFallback := Fallback.onFallback p;
     onError := Fallback.onError p;
     onLoadingComplete := Fallback.onLoadingComplete p |}.

Definition ofState (st : Fallback.State) : State :=
  {| currentSrc := Fallback.currentSrc st;
     hasTriedFallback := Fallback.hasTriedFallback st |}.

End Legacy.

(** ** Counting what a retry run did *)

Module RetryObservers.

Import Retry.

Definition isError (ev : RetryImage.Event) : bool :=
  match ev with
  | RetryImage.EvError => true
  | _ => false
  end.

Definition failures (evs : list RetryImage.Event) : nat :=
  List.length (filter isError evs).

(** The attempts of a lifetime that get a retry: those after [a], up to [a']
    and below [maxRetries]. *)
Definition retried (maxRetries a a' : Z) : nat :=
  Z.to_nat (Z.min a' (maxRetries - 1) - a).

(** The delays of the attempts [a + 1], [a + 2], ... ([n] of them). *)
Definition delaysFrom (c : Config) (a : Z) (n : nat) : list Z :=
  map (fun i =>
         calculateDelay (a + 1 + Z.of_nat i) (retryDelay c)
           (exponentialBackoff c) (maxDelay c))
      (seq 0 n).

(** [onRetry] is called with an attempt number from 1 to below the maximum,
    and with the configured maximum. *)
Definition onRetryWellFormed (maxRetries : Z) (e : Effect) : bool :=
  match e with
  | CallOnRetry attempt m =>
      (1 <=? attempt) && (attempt <? m) && (m =? maxRetries)
  | _ => true
  end.

Definition asksRetry (ev : UseImageRetry.Event) : bool :=
  match ev with
  | UseImageRetry.EvHandleError _ => true
  | UseImageRetry.EvRetry => true
  | _ => false
  end.

Definition asked (evs : list UseImageRetry.Event) : nat :=
  List.length (filter asksRetry evs).

End RetryObservers.

(** ** The helpers of [utils.ts]

    Strings are sequences of characters below U+0100, on which the methods
    of JavaScript strings used here act character by character. *)

Module Utils.

Definition IMAGE_EXTENSIONS : list string :=
  [".jpg"; ".jpeg"; ".png"; ".gif"; ".webp"; ".avif"; ".svg"; ".ico";
   ".bmp"; ".tiff"]%string.

(** [s.startsWith(prefix)] and [s.endsWith(suffix)]. *)
Definition startsWith (s prefix : string) : bool := String.prefix prefix s.

Definition endsWith (s suffix : string) : bool :=
  let n := String.length s in
  let m := String.length suffix in
  if (m <=? n)%nat then String.eqb (substring (n - m) m s) suffix else false.

(** [s.split(c)[0]]: what comes before the first [c]. *)
Fixpoint beforeFirst (c : ascii) (s : string) : string :=
  match s with
  | EmptyString => EmptyString
  | String a rest =>
      if Ascii.eqb a c then EmptyString else String a (beforeFirst c rest)
  end.

(** [s.toLowerCase()]: the capital letters A to Z and, from U+00C0 to
    U+00DE save the multiplication sign, the accented capitals move up by
    32. *)
Definition lowerChar (a : ascii) : ascii :=
  let n := nat_of_ascii a in
  if ((65 <=? n) && (n <=? 90)
      || (192 <=? n) && (n <=? 222) && negb (n =? 215))%nat
  then ascii_of_nat (n + 32)
  else a.

Fixpoint toLowerCase (s : string) : string :=
  match s with
  | EmptyString => EmptyString
  | String a rest => String (lowerChar a) (toLowerCase rest)
  end.

(** [url.toLowerCase().split('?')[0].split('#')[0]]. *)
Definition cleanUrl (url : string) : string :=
  beforeFirst "#" (beforeFirst "?" (toLowerCase url)).

Definition hasImageExtension (url : string) : bool :=
  if String.eqb url EmptyString then false
  else if startsWith url "data:image/" then true
  else existsb (fun ext => endsWith (cleanUrl url) ext) IMAGE_EXTENSIONS.

(** The class [\w]. *)
Definition isWordChar (a : ascii) : bool :=
  let n := nat_of_ascii a in
  ((48 <=? n) && (n <=? 57) || (65 <=? n) && (n <=? 90)
   || (97 <=? n) && (n <=? 122) || (n =? 95))%nat.

Fixpoint wordPrefix (s : string) : string :=
  match s with
  | EmptyString => EmptyString
  | String a rest =>
      if isWordChar a then String a (wordPrefix rest) else EmptyString
  end.

Fixpoint stripPrefix (prefix s : string) : option string :=
  match prefix with
  | EmptyString => Some s
  | String a prefix' =>
      match s with
      | EmptyString => None
      | String b s' => if Ascii.eqb a b then stripPrefix prefix' s' else None
      end
  end.

(** [url.match(/^data:image\/(\w+)/)]: the first group of the match. *)
Definition matchDataImage (url : string) : option string :=
  match stripPrefix "data:image/" url with
  | Some rest =>
      if String.eqb (wordPrefix rest) EmptyString then None
      else Some (wordPrefix rest)
  | None => None
  end.

Definition getImageExtension (url : string) : string :=
  if String.eqb url EmptyString then EmptyString
  else if startsWith url "data:image/" then
    match matchDataImage url with
    | Some subtype => ("." ++ subtype)%string
    | None => EmptyString
    end
  else
    match find (fun ext => endsWith (cleanUrl url) ext) IMAGE_EXTENSIONS with
    | Some found => found
    | None => EmptyString
    end.

(** Whether a character occurs in a string. *)
Fixpoint occurs (c : ascii) (s : string) : bool :=
  match s with
  | EmptyString => false
  | String a rest => Ascii.eqb a c || occurs c rest
  end.

(** *** [generateColorFromString] *)

(** The 32-bit view the shift operators take of a number. *)
Definition ToInt32 (x : Z) : Z := (x + 2 ^ 31) mod 2 ^ 32 - 2 ^ 31.

(** [x << k] and [x >> k]. *)
Definition shiftLeft (x k : Z) : Z := ToInt32 (Z.shiftl (ToInt32 x) k).
Definition shiftRight (x k : Z) : Z := Z.shiftr (ToInt32 x) k.

Definition charCode (a : ascii) : Z := Z.of_nat (nat_of_ascii a).

(** The loop over [str.charCodeAt(i)]; the sum and the difference are those
    of numbers, not of 32-bit integers. *)
Fixpoint hashFrom (hash : Z) (str : string) : Z :=
  match str with
  | EmptyString => hash
  | String a rest => hashFrom (charCode a + (shiftLeft hash 5 - hash)) rest
  end.

Section Color.

(** [hslToHex] works in floating point and is left open here. *)
Variable hslToHex : Z -> Z -> Z -> string.

Definition generateColorFromString (str : string) : string :=
  if String.eqb str EmptyString then "#6366f1"%string
  else
    let hash := hashFrom 0 str in
    let hue := Z.abs (Z.rem hash 360) in
    let saturation := 65 + Z.rem (Z.abs (shiftRight hash 8)) 20 in
    let lightness := 45 + Z.rem (Z.abs (shiftRight hash 16)) 15 in
    hslToHex hue saturation lightness.

End Color.

End Utils.

(** * Properties *)

Lemma src_eqb_refl (a : ImageSrc) : src_eqb a a = true.
Proof.
  destruct a; simpl; [apply String.eqb_refl | apply Nat.eqb_refl].
Qed.

Lemma src_eqb_eq (a b : ImageSrc) : src_eqb a b = true <-> a = b.
Proof.
  destruct a, b; simpl; split; intros H; try discriminate.
  - apply String.eqb_eq in H. now subst.
  - injection H as ->. apply String.eqb_refl.
  - apply Nat.eqb_eq in H. now subst.
  - injection H as ->. apply Nat.eqb_refl.
Qed.

(** ** Fallback escalation *)

Module FallbackFacts.

Import Fallback.

Lemma times_app (f : Call -> bool) (a b : list Call) :
  times f (a ++ b) = (times f a + times f b)%nat.
Proof.
  unfold times. now rewrite filter_app, length_app.
Qed.







(** The bound of C1 is met: with a fallback and a placeholder kind, three
    errors in a row give one notification of each kind. *)
Example escalation_notifies_once_each :
  let p := props "/primary.png" (Some "/fallback.png"%string) (Some gradient)
             (Some (NumDim 200)) (Some (NumDim 200)) in
  snd (run p (init p) [EvError; EvError; EvError])
  = [CallOnFallback; CallOnError; CallOnAlternativeFallback; CallOnError].
Proof. reflexivity. Qed.

(** The gate of C1 is the rendering: [handleError] itself does not look at
    [showAlternativeFallback], and would notify again if it were called on the
    state that shows the placeholder. *)
Remark handleError_ignores_showAlternativeFallback :
  let p := props "/primary.png" None (Some gradient) None None in
  let st := fst (handleError p (init p)) in
  showAlternativeFallback st = true
  /\ snd (handleError p st) = [CallOnAlternativeFallback; CallOnError]
  /\ deliver p st EvError = (st, []).
Proof. repeat split. Qed.

(** C4, as stated, fails when the fallback source is the requested source:
    a failure in [Primary] then changes nothing, placeholder kind or not. *)
Lemma C4_equal_fallback_counterexample :
  ~ (forall (p : Props) (st : State) (k : AlternativeFallbackType),
        stage st = Primary -> currentSrc st = src p ->
        truthy_src (fallbackSrc p) = false \/ fallbackSrc p = Some (src p) ->
        alternativeFallback p = Some k ->
        stage (fst (handleError p st)) = ShowingStaticPlaceholder).
Proof.
  intros H.
  specialize (H (props "/a.png" (Some "/a.png"%string) (Some gradient)
                   (Some (NumDim 200)) (Some (NumDim 200)))
                (init (props "/a.png" (Some "/a.png"%string) (Some gradient)
                   (Some (NumDim 200)) (Some (NumDim 200))))
                gradient eq_refl eq_refl (or_intror eq_refl) eq_refl).
  discriminate H.
Qed.

(** C4, amended. A failure in [Primary], reported either way, with a fallback
    source that is set and differs from the requested one moves the machine to
    [UsingFallback] with the fallback as active source and invokes
    [onFallback]; an error in [Primary] with no fallback source set and a
    placeholder kind set moves it to [ShowingStaticPlaceholder] and invokes
    [onAlternativeFallback]. *)
Theorem C4_primary_failure (p : Props) (st : State) (ev : Event)
    (Hstage : stage st = Primary) (Hcur : currentSrc st = src p)
    (Hfail : isFailure ev = true) :
  (forall f, fallbackSrc p = Some f -> src_truthy f = true -> f <> src p ->
     stage (fst (deliver p st ev)) = UsingFallback
     /\ currentSrc (fst (deliver p st ev)) = f
     /\ filter isInternal (snd (deliver p st ev))
        = invoke (onFallback p) CallOnFallback)
  /\ (forall k, truthy_src (fallbackSrc p) = false ->
       alternativeFallback p = Some k -> ev = EvError ->
       stage (fst (deliver p st ev)) = ShowingStaticPlaceholder
       /\ filter isInternal (snd (deliver p st ev))
          = invoke (onAlternativeFallback p) CallOnAlternativeFallback).
Proof.
  unfold stage in Hstage.
  destruct (showAlternativeFallback st) eqn:Hshow; [discriminate |].
  destruct (hasTriedFallback st) eqn:Htried; [discriminate |].
  assert (Hview : exists s w h, render p st = ImageView s w h).
  { unfold render. rewrite Hshow. eauto. }
  destruct Hview as (s & w & h & Hview).
  unfold deliver. rewrite Hview. split.
  - intros f Hf Htruthy Hneq.
    assert (Hne : src_eqb (currentSrc st) f = false).
    { destruct (src_eqb (currentSrc st) f) eqn:E; [| reflexivity].
      apply src_eqb_eq in E. congruence. }
    destruct ev as [| nw nh]; simpl in Hfail;
      unfold handleError, handleLoadingComplete, setCurrentSrcToFallback;
      rewrite Hf, Htried; simpl; rewrite ?Hfail, Htruthy, Hne; simpl;
      unfold stage; simpl; rewrite Hshow;
      destruct (onFallback p), (onError p); repeat split.
  - intros k Hnone Halt ->.
    unfold handleError. rewrite Hnone, Htried, Halt. simpl.
    unfold stage. simpl.
    destruct (onAlternativeFallback p), (onError p); repeat split.
Qed.

Lemma C4_primary_failure_witness :
  let p := props "/primary.png" (Some "/fallback.png"%string) None
             (Some (NumDim 100)) (Some (NumDim 100)) in
  let q := props "/primary.png" None (Some gradient)
             (Some (NumDim 200)) (Some (NumDim 200)) in
  (stage (fst (deliver p (init p) (EvLoadingComplete 0 0))) = UsingFallback
   /\ currentSrc (fst (deliver p (init p) (EvLoadingComplete 0 0)))
      = UrlSrc "/fallback.png"
   /\ filter isInternal (snd (deliver p (init p) (EvLoadingComplete 0 0)))
      = [CallOnFallback])
  /\ (stage (fst (deliver q (init q) EvError)) = ShowingStaticPlaceholder
      /\ filter isInternal (snd (deliver q (init q) EvError))
         = [CallOnAlternativeFallback]).
Proof.
  intros p q. split.
  - apply (proj1 (C4_primary_failure p (init p) (EvLoadingComplete 0 0)
                    eq_refl eq_refl eq_refl)
             (UrlSrc "/fallback.png") eq_refl eq_refl).
    discriminate.
  - apply (proj2 (C4_primary_failure q (init q) EvError
                    eq_refl eq_refl eq_refl)
             gradient eq_refl eq_refl eq_refl).
Defined.

(** C8, as stated, fails on a completed load of width zero that the
    component turns into a switch to the fallback: the handler returns before
    it reaches the caller's [onLoadingComplete]. *)
Lemma C8_zero_width_counterexample :
  ~ (forall (p : Props) (st : State) (w h : Z),
        onLoadingComplete p = true ->
        In (CallOnLoadingComplete w h)
           (snd (handleLoadingComplete p st w h))).
Proof.
  intros H.
  specialize (H (props "/primary.png" (Some "/fallback.png"%string) None
                   (Some (NumDim 100)) (Some (NumDim 100)))
                (init (props "/primary.png" (Some "/fallback.png"%string) None
                   (Some (NumDim 100)) (Some (NumDim 100))))
                0 0 eq_refl).
  simpl in H. destruct H as [H | []]. discriminate H.
Qed.

(** C8, amended. The caller's [onError] is invoked on every error, however
    the error is handled.  The caller's [onLoadingComplete] is invoked on
    every completed load of non-zero width, and on a completed load of width
    zero exactly when the load changes no state; a load of width zero that
    switches to the fallback or shows the placeholder does not reach it. *)
Theorem C8_caller_callbacks (p : Props) (st : State)
    (Herr : onError p = true) (Hlc : onLoadingComplete p = true)
    (Himg : imageRendered p st = true) :
  times isOnError (snd (handleError p st)) = 1%nat
  /\ (forall w h, w <> 0 ->
       handleLoadingComplete p st w h = (st, [CallOnLoadingComplete w h]))
  /\ (forall h,
       (fst (handleLoadingComplete p st 0 h) = st
        /\ snd (handleLoadingComplete p st 0 h) = [CallOnLoadingComplete 0 h])
       \/ (fst (handleLoadingComplete p st 0 h) <> st
           /\ times isOnLoadingComplete
                (snd (handleLoadingComplete p st 0 h)) = 0%nat)).
Proof.
  repeat split.
  - unfold handleError.
    destruct (truthy_src (fallbackSrc p) && negb (hasTriedFallback st)
              && src_neq_opt (currentSrc st) (fallbackSrc p));
      [| destruct (hasTriedFallback st && isSet (alternativeFallback p));
         [| destruct (negb (truthy_src (fallbackSrc p))
                      && isSet (alternativeFallback p))]];
      simpl; rewrite ?times_app; unfold times, invoke; rewrite Herr;
      destruct (onFallback p), (onAlternativeFallback p); reflexivity.
  - intros w h Hw. unfold handleLoadingComplete.
    apply Z.eqb_neq in Hw. rewrite Hw, Hlc. reflexivity.
  - intros h. unfold handleLoadingComplete. simpl.
    destruct (truthy_src (fallbackSrc p) && negb (hasTriedFallback st)
              && src_neq_opt (currentSrc st) (fallbackSrc p)) eqn:B1.
    + right. split.
      * apply andb_prop in B1 as [B1 _]. apply andb_prop in B1 as [_ B1].
        apply negb_true_iff in B1. simpl. intros E.
        apply (f_equal hasTriedFallback) in E. simpl in E. congruence.
      * unfold times, invoke. simpl. destruct (onFallback p); reflexivity.
    + destruct (hasTriedFallback st && isSet (alternativeFallback p)) eqn:B2.
      * right. split.
        -- apply andb_prop in B2 as [_ B2].
           unfold imageRendered, render in Himg.
           destruct (showAlternativeFallback st) eqn:S,
             (alternativeFallback p); try discriminate.
           simpl. intros E.
           apply (f_equal showAlternativeFallback) in E. simpl in E.
           congruence.
        -- unfold times, invoke. simpl.
           destruct (onAlternativeFallback p); reflexivity.
      * left. rewrite Hlc. split; reflexivity.
Qed.

Lemma C8_caller_callbacks_witness :
  let p := props "/primary.png" (Some "/fallback.png"%string) (Some gradient)
             (Some (NumDim 200)) (Some (NumDim 200)) in
  times isOnError (snd (handleError p (init p))) = 1%nat
  /\ handleLoadingComplete p (init p) 640 480
     = (init p, [CallOnLoadingComplete 640 480]).
Proof.
  intros p.
  destruct (C8_caller_callbacks p (init p) eq_refl eq_refl eq_refl)
    as (He & Hw & _).
  split; [exact He | apply Hw; discriminate].
Defined.

(** Where the two failure paths agree: with a fallback source set, or with
    no placeholder kind, an error and a completed load of width zero make the
    same transition and the same notifications of the machine. *)
Lemma failure_paths_agree (p : Props) (st : State) (h : Z) :
  truthy_src (fallbackSrc p) = true \/ alternativeFallback p = None ->
  internal (handleError p st) = internal (handleLoadingComplete p st 0 h).
Proof.
  intros H. unfold internal, handleError, handleLoadingComplete. simpl.
  destruct (truthy_src (fallbackSrc p) && negb (hasTriedFallback st)
            && src_neq_opt (currentSrc st) (fallbackSrc p)) eqn:B1.
  - simpl. rewrite filter_app.
    destruct (onFallback p), (onError p); reflexivity.
  - destruct (hasTriedFallback st && isSet (alternativeFallback p)) eqn:B2.
    + simpl. rewrite filter_app.
      destruct (onAlternativeFallback p), (onError p); reflexivity.
    + destruct H as [H | H]; rewrite H; simpl;
        rewrite ?andb_false_r; simpl;
        destruct (onError p), (onLoadingComplete p); reflexivity.
Qed.

(** C9. Without a fallback source and with a placeholder kind, the two
    failure paths part in the initial state: the error shows the placeholder
    and notifies, the completed load of zero dimensions does neither. *)
Theorem C9_zero_width_without_fallback :
  let p := props "/primary.png" None (Some gradient)
             (Some (NumDim 200)) (Some (NumDim 200)) in
  internal (handleError p (init p))
  = (setShowAlternativeFallback true (init p), [CallOnAlternativeFallback])
  /\ internal (handleLoadingComplete p (init p) 0 0) = (init p, [])
  /\ internal (handleError p (init p))
     <> internal (handleLoadingComplete p (init p) 0 0).
Proof.
  repeat split. discriminate.
Qed.

(** C10. When the placeholder is rendered, a width that is missing or 0 is
    replaced by 100, and likewise the height; the icon and the text are then
    shown.  The icon is hidden exactly for a numeric width other than 0 below
    60 and the text exactly for one below 80; a string width shows both. *)
Theorem C10_placeholder_dimensions (p : Props) (st : State) (ph : Placeholder)
    (Hview : render p st = PlaceholderView ph) :
  (width p = None \/ width p = Some (NumDim 0) ->
     ph_width ph = NumDim 100 /\ showIcon ph = true /\ showText ph = true)
  /\ (height p = None \/ height p = Some (NumDim 0) ->
      ph_height ph = NumDim 100)
  /\ (showIcon ph = false <->
      exists n, width p = Some (NumDim n) /\ n <> 0 /\ n < 60)
  /\ (showText ph = false <->
      exists n, width p = Some (NumDim n) /\ n <> 0 /\ n < 80)
  /\ (forall s, width p = Some (StrDim s) ->
      showIcon ph = true /\ showText ph = true).
Proof.
  unfold render in Hview.
  destruct (showAlternativeFallback st); [| discriminate].
  destruct (alternativeFallback p) as [type |]; [| discriminate].
  injection Hview as <-. simpl.
  assert (Hhide : forall t, t <= 100 ->
    ((match dim_or (width p) (NumDim 100) with
      | NumDim n => t <=? n
      | StrDim _ => true
      end) = false
     <-> exists n, width p = Some (NumDim n) /\ n <> 0 /\ n < t)).
  { intros t Ht. unfold dim_or. split.
    - destruct (width p) as [[n | s] |]; simpl.
      + destruct (n =? 0) eqn:E; simpl; intros H.
        * apply Z.leb_gt in H. lia.
        * exists n. apply Z.eqb_neq in E. apply Z.leb_gt in H. auto.
      + destruct (negb (String.eqb s "")); intros H;
          [discriminate | apply Z.leb_gt in H; lia].
      + intros H. apply Z.leb_gt in H. lia.
    - intros (n & -> & Hn & Hlt). simpl.
      apply Z.eqb_neq in Hn. rewrite Hn. simpl. now apply Z.leb_gt. }
  split; [| split; [| split; [| split]]].
  - intros [-> | ->]; repeat split.
  - intros [-> | ->]; reflexivity.
  - apply Hhide. lia.
  - apply Hhide. lia.
  - intros s ->. simpl. destruct (negb (String.eqb s "")); split; reflexivity.
Qed.

Lemma C10_placeholder_dimensions_witness :
  let p := props "/primary.png" None (Some gradient) None (Some (NumDim 0)) in
  let st := fst (handleError p (init p)) in
  exists ph,
    render p st = PlaceholderView ph
    /\ ph_width ph = NumDim 100 /\ ph_height ph = NumDim 100
    /\ showIcon ph = true /\ showText ph = true.
Proof.
  intros p st.
  destruct (render p st) as [ph | s w h] eqn:R; [| discriminate R].
  exists ph.
  destruct (C10_placeholder_dimensions p st ph R) as (Hw & Hh & _).
  destruct (Hw (or_introl eq_refl)) as (W & I & T).
  specialize (Hh (or_intror eq_refl)).
  repeat split; assumption.
Defined.

(** The test "hides text on small width placeholders": at width 50 both the
    icon and the text are gone. *)
Example placeholder_width_50 :
  let p := props "/primary.png" None (Some gradient)
             (Some (NumDim 50)) (Some (NumDim 50)) in
  match render p (fst (handleError p (init p))) with
  | PlaceholderView ph => showIcon ph = false /\ showText ph = false
  | ImageView _ _ _ => False
  end.
Proof. simpl. split; reflexivity. Qed.

End FallbackFacts.

(** ** The delay function *)

Module DelayFacts.

Import Retry.

Lemma Math_min_spec (a b : Z) : Math_min a b = Z.min a b.
Proof.
  unfold Math_min. destruct (Z.ltb_spec a b); lia.
Qed.



(** The values the tests name, and the ceiling. *)
Example delays_of_the_defaults :
  map (fun n => calculateDelay n 1000 true 10000) [1; 2; 3; 4; 5; 6]
  = [1000; 2000; 4000; 8000; 10000; 10000].
Proof. reflexivity. Qed.

(** With backoff on, each attempt doubles the uncapped delay of the one
    before, and no delay exceeds the ceiling. *)
Lemma calculateDelay_doubles (n baseDelay maxDelay : Z) :
  1 <= n ->
  calculateDelay (n + 1) baseDelay true maxDelay
  = Z.min (2 * (baseDelay * 2 ^ (n - 1))) maxDelay.
Proof.
  intros Hn. cbv [calculateDelay Math_pow negb].
  rewrite Math_min_spec. f_equal.
  replace (n + 1 - 1) with (Z.succ (n - 1)) by lia.
  rewrite Z.pow_succ_r by lia. ring.
Qed.

Lemma calculateDelay_capped (n baseDelay maxDelay : Z) :
  calculateDelay n baseDelay true maxDelay <= maxDelay.
Proof.
  unfold calculateDelay. simpl. rewrite Math_min_spec. lia.
Qed.

End DelayFacts.

(** ** The component [RetryImage] *)

Module RetryImageFacts.

Import Timers Retry RetryImage.

Lemma run_app (ps : Props * State) (a b : list Event) :
  run ps (a ++ b)
  = (fst (run (fst (run ps a)) b), snd (run ps a) ++ snd (run (fst (run ps a)) b)).
Proof.
  revert ps. induction a as [| ev rest IH]; intros ps; simpl.
  - now destruct (run ps b).
  - destruct (step ps ev) as [ps1 e1]. rewrite IH.
    destruct (run ps1 rest) as [ps2 e2]. simpl.
    now rewrite app_assoc.
Qed.

(** One step that leaves the requested source alone: the props stay, the
    attempt count does not drop, the exhausted flag stays once set, and the
    flag keeps its relation to the count. *)
Lemma step_same_source (p : Props) (st : State) (ev : Event) :
  sameSource ev = true ->
  fst (fst (step (p, st) ev)) = p
  /\ attempts st <= attempts (snd (fst (step (p, st) ev)))
  /\ (hasExhaustedRetries st = true ->
      hasExhaustedRetries (snd (fst (step (p, st) ev))) = true)
  /\ (exhaustedAtMax p st -> exhaustedAtMax p (snd (fst (step (p, st) ev)))).
Proof.
  unfold exhaustedAtMax.
  remember (maxRetries (config p)) as M eqn:HM.
  destruct ev as [| | id now | s]; intros Hs; try discriminate; cbn [step].
  - destruct (render p st); cbn [fst snd].
    + split; [reflexivity | split; [lia | split; auto]].
    + unfold handleError. rewrite <- HM.
      destruct (attempts st + 1 <? M) eqn:E; cbn.
      * apply Z.ltb_lt in E.
        split; [reflexivity | split; [lia | split; [auto |]]].
        intros [H1 H2]. split; intros H; [apply H1 in H |]; lia.
      * apply Z.ltb_ge in E.
        split; [reflexivity | split; [lia | split; [auto |]]].
        intros _. split; intros _; [lia | reflexivity].
  - destruct (render p st); cbn;
      (split; [reflexivity | split; [lia | split; auto]]).
  - unfold fire. destruct (isPending id (host st)); cbn;
      (split; [reflexivity | split; [lia | split; auto]]).
Qed.

Lemma run_same_source (evs : list Event) :
  forall (p : Props) (st : State),
    forallb sameSource evs = true ->
    fst (fst (run (p, st) evs)) = p
    /\ attempts st <= attempts (snd (fst (run (p, st) evs)))
    /\ (hasExhaustedRetries st = true ->
        hasExhaustedRetries (snd (fst (run (p, st) evs))) = true)
    /\ (exhaustedAtMax p st -> exhaustedAtMax p (snd (fst (run (p, st) evs)))).
Proof.
  induction evs as [| ev rest IH]; intros p st Hall; cbn [run fst snd].
  - split; [reflexivity | split; [lia | split; auto]].
  - cbn [forallb] in Hall. apply andb_prop in Hall as [Hev Hrest].
    pose proof (step_same_source p st ev Hev) as (Hp & Hmono & Hkeep & Hinv).
    destruct (step (p, st) ev) as [[p1 st1] e1]. cbn [fst snd] in *. subst p1.
    pose proof (IH p st1 Hrest) as (Hp' & Hmono' & Hkeep' & Hinv').
    destruct (run (p, st1) rest) as [[p2 st2] e2]. cbn [fst snd] in *.
    split; [assumption | split; [lia | split; auto]].
Qed.

(** The source effect resets the cells and leaves the timers of the host and
    the handle in [timeoutRef] as they are. *)
Lemma srcEffect_keeps_timers (p : Props) (st : State) :
  host (srcEffect p st) = host st
  /\ timeoutRef (srcEffect p st) = timeoutRef st.
Proof.
  unfold srcEffect.
  destruct (negb (opt_string_eqb (stringSrc (src p)) (originalSrc st)));
    split; reflexivity.
Qed.

Lemma scheduledDelays_app (a b : list Effect) :
  scheduledDelays (a ++ b) = scheduledDelays a ++ scheduledDelays b.
Proof.
  induction a as [| e rest IH]; simpl; [reflexivity |].
  destruct e; simpl; now rewrite IH.
Qed.

(** With backoff off every timer the component ever starts, across source
    changes too, has the configured delay. *)
Lemma fixed_delay_schedules (evs : list Event) :
  forall (p : Props) (st : State),
    exponentialBackoff (config p) = false ->
    Forall (fun d => d = retryDelay (config p))
      (scheduledDelays (snd (run (p, st) evs))).
Proof.
  induction evs as [| ev rest IH]; intros p st Hoff; cbn [run snd].
  - constructor.
  - assert (Hstep :
      config (fst (fst (step (p, st) ev))) = config p
      /\ Forall (fun d => d = retryDelay (config p))
           (scheduledDelays (snd (step (p, st) ev)))).
    { destruct ev as [| | id now | s]; cbn [step].
      - destruct (render p st); cbn [fst snd scheduledDelays];
          [split; [reflexivity | constructor] |].
        unfold handleError, calculateDelay, setTimeout. rewrite Hoff.
        destruct (attempts st + 1 <? maxRetries (config p));
          destruct (onError p), (onRetry p), (onRetriesExhausted p);
          cbn [negb invoke app fst snd scheduledDelays];
          (split; [reflexivity | repeat constructor]).
      - unfold handleLoad. destruct (render p st), (onSuccess p); cbn;
          (split; [reflexivity | constructor]).
      - cbn. split; [reflexivity | constructor].
      - cbn. split; [reflexivity | constructor]. }
    destruct Hstep as [Hcfg Hd].
    destruct (step (p, st) ev) as [[p1 st1] e1]. cbn [fst snd] in *.
    assert (Hoff1 : exponentialBackoff (config p1) = false)
      by now rewrite Hcfg.
    specialize (IH p1 st1 Hoff1). rewrite Hcfg in IH.
    destruct (run (p1, st1) rest) as [ps2 e2]. cbn [snd] in *.
    rewrite scheduledDelays_app. apply Forall_app. split; assumption.
Qed.

(** C3, as stated, fails at the third failure: with the defaults it starts
    no timer, so no delay of 4000 is ever scheduled. *)
Lemma C3_third_failure_counterexample :
  scheduledDelays
    (effects (plain "https://example.com/image.jpg")
       (threeFailures "1700000001000" "1700000003000"))
  <> [1000; 2000; 4000].
Proof.
  vm_compute. discriminate.
Qed.

(** C3, amended. With the default configuration the first and the second
    failure start a retry timer, of 1000 and of 2000; the third failure
    starts none, sets the exhausted flag and invokes [onRetriesExhausted],
    which has then been invoked exactly once. *)
Theorem C3_default_failures (p : Props) (now1 now2 : string)
    (Hcfg : retryConfig p = noConfig)
    (Hcb : onRetriesExhausted p = true) :
  scheduledDelays (effects p [EvError; EvTimer 1 now1; EvError]) = [1000; 2000]
  /\ scheduledDelays (effects p (threeFailures now1 now2)) = [1000; 2000]
  /\ attempts (final p (threeFailures now1 now2)) = 3
  /\ hasExhaustedRetries (final p (threeFailures now1 now2)) = true
  /\ times isRetriesExhausted (effects p (threeFailures now1 now2)) = 1%nat.
Proof.
  destruct p as [s f c e r x u l i k]. simpl in Hcfg, Hcb. subst c x.
  destruct e, r, u, l; repeat split.
Qed.

Lemma C3_default_failures_witness :
  scheduledDelays
    (effects (plain "https://example.com/image.jpg")
       (threeFailures "1700000001000" "1700000003000")) = [1000; 2000]
  /\ hasExhaustedRetries
       (final (plain "https://example.com/image.jpg")
          (threeFailures "1700000001000" "1700000003000")) = true
  /\ times isRetriesExhausted
       (effects (plain "https://example.com/image.jpg")
          (threeFailures "1700000001000" "1700000003000")) = 1%nat.
Proof.
  destruct (C3_default_failures (plain "https://example.com/image.jpg")
              "1700000001000" "1700000003000" eq_refl eq_refl)
    as (_ & Hd & _ & Hx & Hn).
  repeat split; assumption.
Defined.

(** The test "uses exponential backoff by default" sets [maxRetries] to 4:
    only then does the third failure schedule the delay of 4000. *)
Example four_retries_schedule_4000 :
  let p := withSrc (UrlSrc "https://example.com/image.jpg")
             {| src := UrlSrc "";
                fallbackSrc := None;
                retryConfig :=
                  {| cfg_maxRetries := Some 4;
                     cfg_retryDelay := None;
                     cfg_exponentialBackoff := None;
                     cfg_maxDelay := None |};
                onError := false;
                onRetry := true;
                onRetriesExhausted := false;
                onSuccess := false;
                loadingComponent := false;
                showRetryIndicator := true;
                retryIndicator := false |} in
  scheduledDelays (effects p (threeFailures "1" "2")) = [1000; 2000; 4000].
Proof. reflexivity. Qed.

(** C7. The source effect cancels nothing.  A timer started for the first
    source is still pending after the source has changed; when it fires it
    rewrites the active source of the reset component, and a failure of the
    new source before that leaves two timers outstanding. *)
Theorem C7_source_change_keeps_timer :
  let p := plain "https://example.com/a.jpg" in
  let changed := [EvError; EvSrc (UrlSrc "https://example.com/b.jpg")] in
  currentSrc (final p changed) = Some "https://example.com/b.jpg"%string
  /\ attempts (final p changed) = 0
  /\ outstanding (host (final p changed)) = 1%nat
  /\ currentSrc (final p (changed ++ [EvTimer 1 "1700000001000"]))
     = Some "https://example.com/b.jpg?_retry=1700000001000"%string
  /\ outstanding (host (final p (changed ++ [EvError]))) = 2%nat.
Proof.
  repeat split.
Qed.

End RetryImageFacts.

(** ** The hook [useImageRetry] *)

Module UseImageRetryFacts.

Import Timers Retry UseImageRetry.

(** What [reset] restores, and what it leaves: the timers of the host. *)
Lemma reset_restores (st : State) :
  attempts (reset st) = 0
  /\ hasExhaustedRetries (reset st) = false
  /\ isRetrying (reset st) = false
  /\ src (reset st) = originalSrc st
  /\ host (reset st) = host st.
Proof.
  repeat split.
Qed.




(** C6. [reset] clears no timer.  A retry timer started before the reset is
    still pending after it, and when it fires the source is no longer the
    original one. *)
Theorem C6_reset_keeps_timer :
  let url := "https://example.com/image.jpg"%string in
  let before := [EvHandleError None; EvReset] in
  let after := before ++ [EvTimer 1 "1700000001000"] in
  attempts (fst (run noConfig (mount url) before)) = 0
  /\ hasExhaustedRetries (fst (run noConfig (mount url) before)) = false
  /\ src (fst (run noConfig (mount url) before)) = url
  /\ isPending 1 (host (fst (run noConfig (mount url) before))) = true
  /\ src (fst (run noConfig (mount url) after))
     = "https://example.com/image.jpg?_retry=1700000001000"%string
  /\ src (fst (run noConfig (mount url) after)) <> url.
Proof.
  repeat split. discriminate.
Qed.

End UseImageRetryFacts.

(** ** The invariants of the retry machine *)

Module RetryInvariants.

Import Retry.


Remark zero_maxRetries_before_any_failure :
  let p :=
    RetryImage.mkProps (UrlSrc "/a.png") None
      (mkRetryConfig (Some 0) None None None)
      true true true true false true false in
  RetryImage.hasExhaustedRetries (RetryImage.mount p) = false
  /\ maxRetries (RetryImage.config p)
     <= RetryImage.attempts (RetryImage.mount p).
Proof.
  split; [reflexivity | discriminate].
Qed.



End RetryInvariants.

(** ** Fallback escalation: stages, sources, lifetimes *)

Module FallbackLifetimeFacts.

Import Fallback FallbackLifetimes.


Lemma deliver_rank (p : Props) (st : State) (ev : Event) :
  (rank (stage st) <= rank (stage (fst (deliver p st ev))))%nat.
Proof.
  unfold deliver. destruct (render p st); [cbn; lia |].
  destruct ev as [| w h]; unfold handleError, handleLoadingComplete.
  - destruct (truthy_src (fallbackSrc p) && negb (hasTriedFallback st)
              && src_neq_opt (currentSrc st) (fallbackSrc p));
      [| destruct (hasTriedFallback st && isSet (alternativeFallback p));
         [| destruct (negb (truthy_src (fallbackSrc p))
                      && isSet (alternativeFallback p))]];
      unfold stage, setCurrentSrcToFallback; destruct (fallbackSrc p);
      cbn; destruct (showAlternativeFallback st), (hasTriedFallback st);
      cbn; lia.
  - destruct ((w =? 0) && truthy_src (fallbackSrc p)
              && negb (hasTriedFallback st)
              && src_neq_opt (currentSrc st) (fallbackSrc p));
      [| destruct ((w =? 0) && hasTriedFallback st
                   && isSet (alternativeFallback p))];
      unfold stage, setCurrentSrcToFallback; destruct (fallbackSrc p);
      cbn; destruct (showAlternativeFallback st), (hasTriedFallback st);
      cbn; lia.
Qed.

(** Within one source-lifetime the stage only moves forward, from any
    state: [Primary], then [UsingFallback], then [ShowingStaticPlaceholder],
    possibly skipping the middle one. *)
Theorem stage_never_regresses (p : Props) (evs : list Event) :
  forall st, (rank (stage st) <= rank (stage (fst (run p st evs))))%nat.
Proof.
  induction evs as [| ev rest IH]; intros st; cbn [run fst].
  - lia.
  - pose proof (deliver_rank p st ev) as H1.
    destruct (deliver p st ev) as [st1 c1]. cbn [fst] in H1.
    specialize (IH st1).
    destruct (run p st1 rest) as [st2 c2]. cbn [fst] in *. lia.
Qed.

Lemma deliver_keeps_source (p : Props) (st : State) (ev : Event) :
  (hasTriedFallback st = false /\ currentSrc st = src p)
  \/ (hasTriedFallback st = true
      /\ fallbackSrc p = Some (currentSrc st)
      /\ src_truthy (currentSrc st) = true
      /\ currentSrc st <> src p) ->
  let st' := fst (deliver p st ev) in
  (hasTriedFallback st' = false /\ currentSrc st' = src p)
  \/ (hasTriedFallback st' = true
      /\ fallbackSrc p = Some (currentSrc st')
      /\ src_truthy (currentSrc st') = true
      /\ currentSrc st' <> src p).
Proof.
  intros J. unfold deliver. destruct (render p st); [exact J |].
  assert (Hswitch :
    forall b, b && truthy_src (fallbackSrc p) && negb (hasTriedFallback st)
              && src_neq_opt (currentSrc st) (fallbackSrc p) = true ->
    let st' := setHasTriedFallback true (setCurrentSrcToFallback p st) in
    hasTriedFallback st' = true
    /\ fallbackSrc p = Some (currentSrc st')
    /\ src_truthy (currentSrc st') = true
    /\ currentSrc st' <> src p).
  { intros b B. unfold setCurrentSrcToFallback.
    apply andb_prop in B as [B Bneq]. apply andb_prop in B as [B Btried].
    apply andb_prop in B as [_ Btruthy].
    apply negb_true_iff in Btried.
    destruct (fallbackSrc p) as [f |]; [| discriminate].
    cbn in *. repeat split; auto.
    destruct J as [[_ Jc] | [Jt _]]; [| congruence].
    intros E. subst f. rewrite Jc, src_eqb_refl in Bneq. discriminate. }
  destruct ev as [| w h]; unfold handleError, handleLoadingComplete.
  - destruct (truthy_src (fallbackSrc p) && negb (hasTriedFallback st)
              && src_neq_opt (currentSrc st) (fallbackSrc p)) eqn:B1.
    + right. apply (Hswitch true). exact B1.
    + destruct (hasTriedFallback st && isSet (alternativeFallback p));
        [| destruct (negb (truthy_src (fallbackSrc p))
                     && isSet (alternativeFallback p))];
        cbn; exact J.
  - destruct ((w =? 0) && truthy_src (fallbackSrc p)
              && negb (hasTriedFallback st)
              && src_neq_opt (currentSrc st) (fallbackSrc p)) eqn:B1.
    + right. apply (Hswitch (w =? 0)). exact B1.
    + destruct ((w =? 0) && hasTriedFallback st
                && isSet (alternativeFallback p)); cbn; exact J.
Qed.

(** From mount on, the active source is the requested one until the
    fallback has been tried and the fallback one from then on; the fallback
    is only ever used when it is a non-empty source other than the requested
    one.  No third source is ever rendered. *)
Theorem active_source_is_requested_or_fallback (p : Props)
    (evs : list Event) :
  let st := fst (run p (init p) evs) in
  (hasTriedFallback st = false /\ currentSrc st = src p)
  \/ (hasTriedFallback st = true
      /\ fallbackSrc p = Some (currentSrc st)
      /\ src_truthy (currentSrc st) = true
      /\ currentSrc st <> src p).
Proof.
  cbv zeta.
  assert (G : forall st,
    (hasTriedFallback st = false /\ currentSrc st = src p)
    \/ (hasTriedFallback st = true
        /\ fallbackSrc p = Some (currentSrc st)
        /\ src_truthy (currentSrc st) = true
        /\ currentSrc st <> src p) ->
    (hasTriedFallback (fst (run p st evs)) = false
     /\ currentSrc (fst (run p st evs)) = src p)
    \/ (hasTriedFallback (fst (run p st evs)) = true
        /\ fallbackSrc p = Some (currentSrc (fst (run p st evs)))
        /\ src_truthy (currentSrc (fst (run p st evs))) = true
        /\ currentSrc (fst (run p st evs)) <> src p)).
  { induction evs as [| ev rest IH]; intros st J; cbn [run fst].
    - exact J.
    - pose proof (deliver_keeps_source p st ev J) as J1. cbv zeta in J1.
      destruct (deliver p st ev) as [st1 c1]. cbn [fst] in J1.
      specialize (IH st1 J1).
      destruct (run p st1 rest) as [st2 c2]. cbn [fst] in *. exact IH. }
  apply G. left. split; reflexivity.
Qed.





(** A new source gives the fallback a second chance: after a change of
    [src] the component notifies again where it had already notified. *)
Example second_source_notifies_again :
  let p := props "/primary.png" (Some "/fallback.png"%string) None
             (Some (NumDim 100)) (Some (NumDim 100)) in
  snd (session (p, init p)
         [FromImage EvError; FromImage EvError;
          NewSrc (UrlSrc "/new.png"); FromImage EvError])
  = [CallOnFallback; CallOnError; CallOnError; CallOnFallback; CallOnError].
Proof. reflexivity. Qed.

Lemma legacy_simulation (p : Props) (evs : list Event) :
  alternativeFallback p = None ->
  forall st,
    Legacy.run (Legacy.ofProps p) (Legacy.ofState st) evs
    = (Legacy.ofState (fst (run p st evs)), snd (run p st evs)).
Proof.
  intros Halt.
  induction evs as [| ev rest IH]; intros st; cbn [run Legacy.run fst snd].
  - reflexivity.
  - assert (Hstep : Legacy.deliver (Legacy.ofProps p) (Legacy.ofState st) ev
                    = (Legacy.ofState (fst (deliver p st ev)),
                       snd (deliver p st ev))).
    { unfold deliver, render. rewrite Halt.
      destruct (showAlternativeFallback st);
        (destruct ev as [| w h]; cbn [Legacy.deliver];
         unfold Legacy.handleError, Legacy.handleLoadingComplete,
           handleError, handleLoadingComplete, Legacy.switched,
           setCurrentSrcToFallback;
         cbn [Legacy.ofProps Legacy.ofState Legacy.fallbackSrc
              Legacy.currentSrc Legacy.hasTriedFallback Legacy.onFallback
              Legacy.onError Legacy.onLoadingComplete];
         rewrite Halt; cbn [isSet]; rewrite ?andb_false_r;
         [ destruct (truthy_src (fallbackSrc p)
                     && negb (hasTriedFallback st)
                     && src_neq_opt (currentSrc st) (fallbackSrc p))
         | destruct ((w =? 0) && truthy_src (fallbackSrc p)
                     && negb (hasTriedFallback st)
                     && src_neq_opt (currentSrc st) (fallbackSrc p)) ];
         destruct (fallbackSrc p); reflexivity). }
    rewrite Hstep.
    destruct (deliver p st ev) as [st1 c1]. cbn [fst snd].
    rewrite IH.
    destruct (run p st1 rest) as [st2 c2]. reflexivity.
Qed.

(** Without the [alternativeFallback] prop the component is the earlier
    one: on every sequence of events it goes through the same sources, tries
    the fallback at the same event, makes the same calls in the same order,
    and always renders the host [Image] with the active source. *)
Theorem without_placeholder_as_before (p : Props) (evs : list Event)
    (Halt : alternativeFallback p = None) :
  Legacy.run (Legacy.ofProps p) (Legacy.init (Legacy.ofProps p)) evs
  = (Legacy.ofState (fst (run p (init p) evs)), snd (run p (init p) evs))
  /\ render p (fst (run p (init p) evs))
     = ImageView (currentSrc (fst (run p (init p) evs))) (width p) (height p).
Proof.
  split.
  - apply (legacy_simulation p evs Halt (init p)).
  - unfold render. rewrite Halt.
    destruct (showAlternativeFallback (fst (run p (init p) evs)));
      reflexivity.
Qed.

Lemma without_placeholder_as_before_witness :
  let p := props "/primary.png" (Some "/fallback.png"%string) None
             (Some (NumDim 100)) (Some (NumDim 100)) in
  Legacy.run (Legacy.ofProps p) (Legacy.init (Legacy.ofProps p))
    [EvError; EvError]
  = (Legacy.ofState (fst (run p (init p) [EvError; EvError])),
     snd (run p (init p) [EvError; EvError])).
Proof.
  intros p.
  apply (proj1 (without_placeholder_as_before p [EvError; EvError] eq_refl)).
Defined.

Lemma run_keeps_kind (p : Props) (evs : list Event) :
  forall st,
    (showAlternativeFallback st = true ->
     isSet (alternativeFallback p) = true) ->
    showAlternativeFallback (fst (run p st evs)) = true ->
    isSet (alternativeFallback p) = true.
Proof.
  induction evs as [| ev rest IH]; intros st Q; cbn [run fst].
  - exact Q.
  - assert (Q1 : showAlternativeFallback (fst (deliver p st ev)) = true ->
                 isSet (alternativeFallback p) = true).
    { unfold deliver. destruct (render p st); [exact Q |].
      destruct ev as [| w h]; unfold handleError, handleLoadingComplete.
      - destruct (truthy_src (fallbackSrc p) && negb (hasTriedFallback st)
                  && src_neq_opt (currentSrc st) (fallbackSrc p));
          [| destruct (hasTriedFallback st && isSet (alternativeFallback p))
               eqn:B2;
             [| destruct (negb (truthy_src (fallbackSrc p))
                          && isSet (alternativeFallback p)) eqn:B3]];
          unfold setCurrentSrcToFallback; destruct (fallbackSrc p); cbn;
          intros H; auto;
          try (apply andb_prop in B2 as [_ B2]; exact B2);
          try (apply andb_prop in B3 as [_ B3]; exact B3).
      - destruct ((w =? 0) && truthy_src (fallbackSrc p)
                  && negb (hasTriedFallback st)
                  && src_neq_opt (currentSrc st) (fallbackSrc p));
          [| destruct ((w =? 0) && hasTriedFallback st
                       && isSet (alternativeFallback p)) eqn:B2];
          unfold setCurrentSrcToFallback; destruct (fallbackSrc p); cbn;
          intros H; auto;
          try (apply andb_prop in B2 as [_ B2]; exact B2). }
    destruct (deliver p st ev) as [st1 c1]. cbn [fst] in Q1.
    specialize (IH st1 Q1).
    destruct (run p st1 rest) as [st2 c2]. cbn [fst] in *. exact IH.
Qed.

(** Every event either leaves the state of a mounted component as it is or
    moves it to a later stage: there is no transition within a stage and
    none backwards, hence at most two transitions in a source-lifetime. *)
Theorem every_transition_advances (p : Props) (evs : list Event)
    (ev : Event) :
  let st := fst (run p (init p) evs) in
  fst (deliver p st ev) = st
  \/ (rank (stage st) < rank (stage (fst (deliver p st ev))))%nat.
Proof.
  cbv zeta.
  pose proof (run_keeps_kind p evs (init p)
                ltac:(cbn; discriminate)) as Q.
  remember (fst (run p (init p) evs)) as st eqn:Hst. clear Hst.
  unfold deliver. destruct (render p st) eqn:R; [now left |].
  assert (Hshow : showAlternativeFallback st = false).
  { destruct (showAlternativeFallback st) eqn:S; [| reflexivity].
    specialize (Q eq_refl). unfold render in R. rewrite S in R.
    destruct (alternativeFallback p); discriminate. }
  clear Q R.
  destruct ev as [| w h]; unfold handleError, handleLoadingComplete.
  - destruct (truthy_src (fallbackSrc p) && negb (hasTriedFallback st)
              && src_neq_opt (currentSrc st) (fallbackSrc p)) eqn:B1;
      [| destruct (hasTriedFallback st && isSet (alternativeFallback p));
         [| destruct (negb (truthy_src (fallbackSrc p))
                      && isSet (alternativeFallback p))]].
    + right. apply andb_prop in B1 as [B1 _].
      apply andb_prop in B1 as [_ B1]. apply negb_true_iff in B1.
      unfold setCurrentSrcToFallback, stage.
      destruct (fallbackSrc p); cbn; rewrite Hshow, B1; cbn; lia.
    + right. unfold stage. cbn. rewrite Hshow.
      destruct (hasTriedFallback st); cbn; lia.
    + right. unfold stage. cbn. rewrite Hshow.
      destruct (hasTriedFallback st); cbn; lia.
    + now left.
  - destruct ((w =? 0) && truthy_src (fallbackSrc p)
              && negb (hasTriedFallback st)
              && src_neq_opt (currentSrc st) (fallbackSrc p)) eqn:B1;
      [| destruct ((w =? 0) && hasTriedFallback st
                   && isSet (alternativeFallback p))].
    + right. apply andb_prop in B1 as [B1 _].
      apply andb_prop in B1 as [_ B1]. apply negb_true_iff in B1.
      unfold setCurrentSrcToFallback, stage.
      destruct (fallbackSrc p); cbn; rewrite Hshow, B1; cbn; lia.
    + right. unfold stage. cbn. rewrite Hshow.
      destruct (hasTriedFallback st); cbn; lia.
    + now left.
Qed.

(** The placeholder never shows its text without its icon: the text needs
    a width of 80, the icon one of 60, and a width that is not a number
    shows both. *)
Theorem placeholder_text_needs_icon (p : Props) (st : State)
    (ph : Placeholder) (Hview : render p st = PlaceholderView ph) :
  (showText ph = true -> showIcon ph = true)
  /\ (fontSize ph = "10px"%string <-> iconSize ph = "16"%string).
Proof.
  unfold render in Hview.
  destruct (showAlternativeFallback st); [| discriminate].
  destruct (alternativeFallback p); [| discriminate].
  injection Hview as <-. cbn.
  destruct (dim_or (width p) (NumDim 100)) as [n | s].
  - split.
    + intros H. apply Z.leb_le in H. apply Z.leb_le. lia.
    + destruct (n <? 100); split; intros H; try reflexivity;
        discriminate.
  - split; [reflexivity | split; discriminate].
Qed.

Lemma placeholder_text_needs_icon_witness :
  let p := props "/primary.png" None (Some gradient)
             (Some (NumDim 90)) (Some (NumDim 90)) in
  exists ph,
    render p (fst (handleError p (init p))) = PlaceholderView ph
    /\ (showText ph = true -> showIcon ph = true).
Proof.
  intros p.
  destruct (render p (fst (handleError p (init p)))) as [ph | s w h] eqn:R;
    [| discriminate R].
  exists ph. split; [reflexivity |].
  apply (proj1 (placeholder_text_needs_icon p _ ph R)).
Defined.

End FallbackLifetimeFacts.

(** ** Retry with backoff: what a lifetime schedules *)

Module RetryScheduleFacts.

Import Timers Retry RetryImage RetryObservers.



Lemma delaysFrom_next (c : Config) (a : Z) (n : nat) :
  delaysFrom c a (S n)
  = calculateDelay (a + 1) (retryDelay c) (exponentialBackoff c) (maxDelay c)
    :: delaysFrom c (a + 1) n.
Proof.
  unfold delaysFrom. cbn [seq map].
  replace (a + 1 + Z.of_nat 0) with (a + 1) by lia.
  f_equal. rewrite <- seq_shift, map_map.
  apply map_ext. intros i. f_equal. lia.
Qed.

(** The three things one event can do to the count and the schedule: leave
    them alone, count a failure and start its retry, or count a failure that
    finds the retries exhausted. *)
Lemma step_shape (p : Props) (st : State) (ev : Event) :
  sameSource ev = true ->
  let st1 := snd (fst (step (p, st) ev)) in
  let e1 := snd (step (p, st) ev) in
  (attempts st1 = attempts st
   /\ scheduledDelays e1 = []
   /\ times isRetriesExhausted e1 = 0%nat
   /\ (isError ev = false \/ loadingComponent p = true))
  \/ (attempts st1 = attempts st + 1
      /\ attempts st + 1 < maxRetries (config p)
      /\ scheduledDelays e1
         = [calculateDelay (attempts st + 1) (retryDelay (config p))
              (exponentialBackoff (config p)) (maxDelay (config p))]
      /\ times isRetriesExhausted e1 = 0%nat
      /\ isError ev = true)
  \/ (attempts st1 = attempts st + 1
      /\ maxRetries (config p) <= attempts st + 1
      /\ scheduledDelays e1 = []
      /\ times isRetriesExhausted e1
         = (if onRetriesExhausted p then 1%nat else 0%nat)
      /\ isError ev = true).
Proof.
  destruct ev as [| | id now | s]; intros Hs; try discriminate; cbn [step].
  - unfold render.
    destruct (isRetrying st && loadingComponent p) eqn:L.
    + left. apply andb_prop in L as [_ L]. cbn. auto.
    + unfold handleError, setTimeout.
      destruct (attempts st + 1 <? maxRetries (config p)) eqn:E.
      * right. left. apply Z.ltb_lt in E.
        destruct (onError p), (onRetry p); unfold times; cbn; auto.
      * right. right. apply Z.ltb_ge in E.
        destruct (onError p), (onRetriesExhausted p); unfold times; cbn;
          auto.
  - left. unfold render, handleLoad.
    destruct (isRetrying st && loadingComponent p), (onSuccess p);
      unfold times; cbn; auto.
  - left. unfold fire. destruct (isPending id (host st)); cbn; auto.
Qed.

Lemma run_schedule (evs : list Event) :
  forall (p : Props) (st : State),
    forallb sameSource evs = true ->
    let st' := snd (fst (run (p, st) evs)) in
    let es := snd (run (p, st) evs) in
    attempts st <= attempts st'
    /\ scheduledDelays es
       = delaysFrom (config p) (attempts st)
           (retried (maxRetries (config p)) (attempts st) (attempts st'))
    /\ (Z.of_nat (List.length (scheduledDelays es))
        + Z.of_nat (times isRetriesExhausted es)
        = if onRetriesExhausted p then attempts st' - attempts st
          else Z.of_nat (List.length (scheduledDelays es)))
    /\ (loadingComponent p = false ->
        attempts st' = attempts st + Z.of_nat (failures evs)).
Proof.
  induction evs as [| ev rest IH]; intros p st Hall; cbn [run fst snd].
  - replace (retried (maxRetries (config p)) (attempts st) (attempts st))
      with 0%nat by (unfold retried; lia).
    unfold delaysFrom, times, failures.
    cbn [seq map filter List.length scheduledDelays].
    destruct (onRetriesExhausted p); repeat split; lia.
  - cbn [forallb] in Hall. apply andb_prop in Hall as [Hev Hrest].
    pose proof (step_shape p st ev Hev) as Hshape.
    pose proof (RetryImageFacts.step_same_source p st ev Hev) as (Hp & _).
    destruct (step (p, st) ev) as [[p1 st1] e1]. cbn [fst snd] in *.
    subst p1.
    specialize (IH p st1 Hrest). cbv zeta in IH.
    destruct (run (p, st1) rest) as [[p2 st2] e2]. cbn [fst snd] in *.
    destruct IH as (Hmono & Hsched & Hsum & Hcount).
    rewrite RetryImageFacts.scheduledDelays_app.
    unfold times in *. rewrite filter_app, !length_app.
    unfold failures in *. cbn [filter].
    destruct Hshape as [(Ha & Hs & Hx & Hdrop)
                       | [(Ha & Hlt & Hs & Hx & Herr)
                         | (Ha & Hge & Hs & Hx & Herr)]];
      rewrite Hs, Hx; rewrite Ha in *.
    + cbn [app List.length]. repeat split; auto.
      intros Hl. specialize (Hcount Hl).
      destruct Hdrop as [Hd | Hd]; [| congruence].
      rewrite Hd. exact Hcount.
    + replace (retried (maxRetries (config p)) (attempts st) (attempts st2))
        with (S (retried (maxRetries (config p)) (attempts st + 1)
                   (attempts st2)))
        by (unfold retried; lia).
      rewrite Hsched in Hsum.
      rewrite delaysFrom_next, Hsched. cbn [app List.length].
      rewrite Herr. cbn [List.length].
      repeat split; try lia.
      * destruct (onRetriesExhausted p); lia.
      * intros Hl. specialize (Hcount Hl). lia.
    + replace (retried (maxRetries (config p)) (attempts st) (attempts st2))
        with 0%nat by (unfold retried; lia).
      replace (retried (maxRetries (config p)) (attempts st + 1)
                 (attempts st2))
        with 0%nat in Hsched by (unfold retried; lia).
      rewrite Hsched. unfold delaysFrom. cbn [seq map app List.length].
      rewrite Herr. cbn [List.length].
      repeat split; try lia.
      * rewrite Hsched in Hsum. unfold delaysFrom in Hsum.
        cbn [seq map List.length] in Hsum.
        destruct (onRetriesExhausted p); lia.
      * intros Hl. specialize (Hcount Hl). lia.
Qed.

(** While the requested source stays the same, the timers the component
    starts are exactly those of the attempts 1, 2, ... in order, the k-th with
    the delay [calculateDelay k]; there are never more of them than
    [maxRetries - 1]. *)
Theorem lifetime_schedule (p : Props) (evs : list Event)
    (Hevs : forallb sameSource evs = true) :
  let n := retried (maxRetries (config p)) 0 (attempts (final p evs)) in
  scheduledDelays (effects p evs)
  = map (fun i =>
           calculateDelay (1 + Z.of_nat i) (retryDelay (config p))
             (exponentialBackoff (config p)) (maxDelay (config p)))
        (seq 0 n)
  /\ Z.of_nat n <= Z.max 0 (maxRetries (config p) - 1).
Proof.
  pose proof (run_schedule evs p (mount p) Hevs) as (Hmono & Hsched & _).
  cbv zeta. unfold effects, final. split.
  - rewrite Hsched. reflexivity.
  - unfold retried. cbn [mount attempts] in Hmono. lia.
Qed.

Lemma lifetime_schedule_witness :
  scheduledDelays
    (effects (plain "https://example.com/image.jpg")
       [EvError; EvError; EvError; EvError])
  = [1000; 2000].
Proof.
  apply (proj1 (lifetime_schedule (plain "https://example.com/image.jpg")
                  [EvError; EvError; EvError; EvError] eq_refl)).
Defined.

(** Every failure that reaches the component is answered in exactly one
    way: it starts a retry timer or it invokes [onRetriesExhausted].  The
    timers started and the exhaustion notices together number the
    failures. *)
Theorem every_failure_is_answered (p : Props) (evs : list Event)
    (Hevs : forallb sameSource evs = true)
    (Hcb : onRetriesExhausted p = true)
    (Hload : loadingComponent p = false) :
  (List.length (scheduledDelays (effects p evs))
   + times isRetriesExhausted (effects p evs))%nat
  = failures evs
  /\ attempts (final p evs) = Z.of_nat (failures evs).
Proof.
  pose proof (run_schedule evs p (mount p) Hevs) as (_ & _ & Hsum & Hcount).
  cbv zeta in Hsum, Hcount. rewrite Hcb in Hsum.
  specialize (Hcount Hload). cbn [mount attempts] in Hsum, Hcount.
  unfold effects, final. split; [lia | exact Hcount].
Qed.

Lemma every_failure_is_answered_witness :
  (List.length
     (scheduledDelays
        (effects (plain "https://example.com/image.jpg")
           [EvError; EvTimer 1 "1"; EvError; EvError; EvError]))
   + times isRetriesExhausted
       (effects (plain "https://example.com/image.jpg")
          [EvError; EvTimer 1 "1"; EvError; EvError; EvError]))%nat
  = 4%nat.
Proof.
  apply (proj1 (every_failure_is_answered
                  (plain "https://example.com/image.jpg")
                  [EvError; EvTimer 1 "1"; EvError; EvError; EvError]
                  eq_refl eq_refl eq_refl)).
Defined.

(** A load that succeeds reports how many failures came before it: after
    [n] failures of the same source [onSuccess] is invoked with [n], and with
    nothing else. *)
Theorem success_reports_failures (p : Props) (evs : list Event)
    (Hevs : forallb sameSource evs = true)
    (Hload : loadingComponent p = false) :
  effects p (evs ++ [EvLoad])
  = effects p evs
    ++ invoke (onSuccess p) (CallOnSuccess (Z.of_nat (failures evs))).
Proof.
  pose proof (run_schedule evs p (mount p) Hevs) as (_ & _ & _ & Hcount).
  cbv zeta in Hcount. specialize (Hcount Hload).
  cbn [mount attempts] in Hcount.
  pose proof (RetryImageFacts.run_same_source evs p (mount p) Hevs)
    as (Hp & _).
  unfold effects. rewrite RetryImageFacts.run_app. cbn [snd].
  destruct (run (p, mount p) evs) as [[p1 st1] e1]. cbn [fst snd] in *.
  subst p1. f_equal.
  cbn [run step]. unfold render. rewrite Hload, andb_false_r.
  unfold handleLoad. cbn [fst snd]. rewrite Hcount, app_nil_r.
  reflexivity.
Qed.

Lemma success_reports_failures_witness :
  effects (plain "https://example.com/image.jpg")
    ([EvError; EvTimer 1 "1700000001000"; EvError] ++ [EvLoad])
  = effects (plain "https://example.com/image.jpg")
      [EvError; EvTimer 1 "1700000001000"; EvError]
    ++ [CallOnSuccess 2].
Proof.
  apply (success_reports_failures (plain "https://example.com/image.jpg")
           [EvError; EvTimer 1 "1700000001000"; EvError] eq_refl eq_refl).
Defined.

End RetryScheduleFacts.

(** ** Retry with backoff: the indicator, the callbacks, the fallback *)

Module RetryImageLifeFacts.

Import Timers Retry RetryImage RetryObservers.

Lemma started_timer_is_pending (delay : Z) (h : Host) :
  isPending (fst (setTimeout delay h)) (snd (setTimeout delay h)) = true.
Proof.
  unfold isPending, setTimeout. cbn [fst snd pending].
  rewrite existsb_app. cbn. rewrite Nat.eqb_refl. apply orb_true_r.
Qed.

Lemma step_retrying (p : Props) (st : State) (ev : Event) :
  (isRetrying st = true ->
   exists id, timeoutRef st = Some id /\ isPending id (host st) = true) ->
  isRetrying (snd (fst (step (p, st) ev))) = true ->
  exists id,
    timeoutRef (snd (fst (step (p, st) ev))) = Some id
    /\ isPending id (host (snd (fst (step (p, st) ev)))) = true.
Proof.
  intros Hinv.
  destruct ev as [| | id now | s]; cbn [step].
  - destruct (render p st); cbn [fst snd]; [exact Hinv |].
    unfold handleError.
    destruct (attempts st + 1 <? maxRetries (config p)).
    + pose proof (started_timer_is_pending
                    (calculateDelay (attempts st + 1) (retryDelay (config p))
                       (exponentialBackoff (config p)) (maxDelay (config p)))
                    (host st)) as Hp.
      destruct (setTimeout _ (host st)) as [id h]. cbn [fst snd] in *.
      intros _. exists id. split; [reflexivity | exact Hp].
    + cbn [fst snd isRetrying timeoutRef host]. exact Hinv.
  - destruct (render p st); cbn [fst snd]; [exact Hinv |].
    unfold handleLoad. cbn. discriminate.
  - cbn [fst snd]. unfold fire.
    destruct (isPending id (host st)); [cbn; discriminate | exact Hinv].
  - cbn [fst snd]. unfold srcEffect.
    destruct (negb (opt_string_eqb (stringSrc (src (withSrc s p)))
                      (originalSrc st)));
      [cbn; discriminate | exact Hinv].
Qed.

Lemma run_retrying (evs : list Event) :
  forall ps : Props * State,
    (isRetrying (snd ps) = true ->
     exists id, timeoutRef (snd ps) = Some id
                /\ isPending id (host (snd ps)) = true) ->
    isRetrying (snd (fst (run ps evs))) = true ->
    exists id, timeoutRef (snd (fst (run ps evs))) = Some id
               /\ isPending id (host (snd (fst (run ps evs)))) = true.
Proof.
  induction evs as [| ev rest IH]; intros [q st] Hinv; cbn [run fst snd].
  - exact Hinv.
  - pose proof (step_retrying q st ev Hinv) as H1.
    destruct (step (q, st) ev) as [[q1 st1] e1]. cbn [fst snd] in H1.
    specialize (IH (q1, st1) H1).
    destruct (run (q1, st1) rest) as [ps2 e2]. cbn [fst snd] in *.
    exact IH.
Qed.

(** The component never waits on nothing: whenever it is retrying, through
    failures, loads, timers and source changes alike, the timer named by
    [timeoutRef] is pending, and its firing ends the wait. *)
Theorem retrying_has_a_pending_timer (p : Props) (evs : list Event)
    (Hretrying : isRetrying (final p evs) = true) :
  exists id,
    timeoutRef (final p evs) = Some id
    /\ isPending id (host (final p evs)) = true
    /\ forall now, isRetrying (fire id now (final p evs)) = false.
Proof.
  destruct (run_retrying evs (p, mount p)) as (id & Href & Hpend).
  - cbn. discriminate.
  - exact Hretrying.
  - exists id. split; [exact Href | split; [exact Hpend |]].
    intros now. unfold fire, final in *. rewrite Hpend. reflexivity.
Qed.

Lemma retrying_has_a_pending_timer_witness :
  exists id,
    timeoutRef (final (plain "https://example.com/image.jpg") [EvError])
    = Some id
    /\ isPending id
         (host (final (plain "https://example.com/image.jpg") [EvError]))
       = true.
Proof.
  destruct (retrying_has_a_pending_timer
              (plain "https://example.com/image.jpg") [EvError] eq_refl)
    as (id & Href & Hpend & _).
  exists id. split; assumption.
Defined.

Lemma run_onRetry (evs : list Event) (m : Z) :
  forall (p : Props) (st : State),
    maxRetries (config p) = m ->
    0 <= attempts st ->
    forallb (onRetryWellFormed m) (snd (run (p, st) evs)) = true.
Proof.
  induction evs as [| ev rest IH]; intros p st Hm Hpos; cbn [run snd].
  - reflexivity.
  - assert (Hstep :
      maxRetries (config (fst (fst (step (p, st) ev)))) = m
      /\ 0 <= attempts (snd (fst (step (p, st) ev)))
      /\ forallb (onRetryWellFormed m) (snd (step (p, st) ev)) = true).
    { destruct ev as [| | id now | s]; cbn [step].
      - destruct (render p st); cbn [fst snd forallb]; [auto |].
        unfold handleError, setTimeout. rewrite Hm.
        destruct (attempts st + 1 <? m) eqn:E; cbn [fst snd attempts].
        + apply Z.ltb_lt in E.
          split; [exact Hm | split; [lia |]].
          assert (H1 : (1 <=? attempts st + 1) = true)
            by (apply Z.leb_le; lia).
          assert (H2 : (attempts st + 1 <? m) = true)
            by (apply Z.ltb_lt; lia).
          destruct (onError p), (onRetry p);
            cbn [invoke app forallb onRetryWellFormed];
            rewrite ?H1, ?H2, ?Z.eqb_refl; reflexivity.
        + split; [exact Hm | split; [lia |]].
          destruct (onError p), (onRetriesExhausted p); reflexivity.
      - unfold handleLoad.
        destruct (render p st), (onSuccess p); cbn; auto.
      - cbn [fst snd forallb]. unfold fire.
        destruct (isPending id (host st)); cbn; auto.
      - cbn [fst snd forallb]. unfold srcEffect.
        destruct (negb (opt_string_eqb (stringSrc (src (withSrc s p)))
                          (originalSrc st)));
          cbn [attempts]; (split; [exact Hm | split; [lia | reflexivity]]). }
    destruct Hstep as (Hm1 & Hpos1 & Hwf).
    destruct (step (p, st) ev) as [[p1 st1] e1]. cbn [fst snd] in *.
    specialize (IH p1 st1 Hm1 Hpos1).
    destruct (run (p1, st1) rest) as [ps2 e2]. cbn [snd] in *.
    rewrite forallb_app, Hwf, IH. reflexivity.
Qed.

(** Every call of [onRetry], in any lifetime of a mounted component, has the
    form [onRetry(k, maxRetries)] with [1 <= k < maxRetries]: it never
    announces a retry beyond the configured maximum. *)
Theorem onRetry_arguments (p : Props) (evs : list Event) :
  forallb (onRetryWellFormed (maxRetries (config p))) (effects p evs) = true.
Proof.
  apply run_onRetry; [reflexivity | cbn; lia].
Qed.

(** The failure that exhausts the retries, with a non-empty [fallbackSrc],
    starts no timer, and the next render shows the fallback source. *)
Theorem exhaustion_switches_to_fallback (p : Props) (st : State)
    (f : string) (imageSrc : ImageSrc) (indicator : bool)
    (Hf : fallbackSrc p = Some f) (Hne : f <> EmptyString)
    (Hlast : maxRetries (config p) <= attempts st + 1)
    (Hview : render p st = ImageView imageSrc indicator) :
  hasExhaustedRetries (fst (handleError p st)) = true
  /\ scheduledDelays (snd (handleError p st)) = []
  /\ render p (fst (handleError p st)) = ImageView (UrlSrc f) indicator.
Proof.
  unfold handleError.
  apply Z.ltb_ge in Hlast. rewrite Hlast. cbn [fst snd].
  unfold render in *. cbn [isRetrying currentSrc hasExhaustedRetries].
  rewrite Hf. cbn [truthy_string].
  apply String.eqb_neq in Hne. rewrite Hne. cbn [negb].
  destruct (isRetrying st && loadingComponent p); [discriminate |].
  injection Hview as _ <-.
  split; [reflexivity | split; [| cbn; rewrite ?Hne; reflexivity]].
  destruct (onError p), (onRetriesExhausted p); reflexivity.
Qed.

Lemma exhaustion_switches_to_fallback_witness :
  let p := mkProps (UrlSrc "https://example.com/image.jpg")
             (Some "https://example.com/fallback.jpg"%string)
             (mkRetryConfig (Some 1) None None None)
             true true true true false true false in
  render p (fst (handleError p (mount p)))
  = ImageView (UrlSrc "https://example.com/fallback.jpg") false.
Proof.
  intros p.
  apply (proj2 (proj2 (exhaustion_switches_to_fallback p (mount p)
                         "https://example.com/fallback.jpg"
                         (UrlSrc "https://example.com/image.jpg") false
                         eq_refl ltac:(discriminate) ltac:(cbv; discriminate)
                         eq_refl))).
Defined.

Lemma fired_is_not_pending (id : nat) (h : Host) :
  isPending id (fired id h) = false.
Proof.
  unfold isPending, fired, clearTimeout, drop. cbn [pending].
  induction (pending h) as [| t ts IH]; cbn; [reflexivity |].
  destruct (Nat.eqb (timerId t) id) eqn:E; cbn; [exact IH |].
  now rewrite E, IH.
Qed.

Lemma append_longer (s x : string) :
  (s ++ x)%string = s -> x = EmptyString.
Proof.
  induction s as [| a s IH]; cbn; [auto |].
  intros H. injection H as H. auto.
Qed.

(** A pending retry timer of a string source, when it fires, ends the wait
    and puts the host [Image] back with a source that is the original one
    followed by a non-empty suffix, so never the original itself; after
    that the timer is gone, and firing it again does nothing. *)
Theorem timer_forces_reload (p : Props) (st : State) (id : nat)
    (now : string) (original : string)
    (Horig : originalSrc st = Some original)
    (Hpend : isPending id (host st) = true) :
  isRetrying (fire id now st) = false
  /\ (exists suffix,
        suffix <> EmptyString
        /\ render p (fire id now st)
           = ImageView (UrlSrc (original ++ suffix)) false
        /\ (original ++ suffix)%string <> original)
  /\ isPending id (host (fire id now st)) = false
  /\ forall later, fire id later (fire id now st) = fire id now st.
Proof.
  unfold fire. rewrite Hpend. unfold timerCallback.
  cbn [isRetrying host currentSrc originalSrc attempts hasLoaded
       hasExhaustedRetries timeoutRef].
  rewrite fired_is_not_pending.
  split; [reflexivity | split; [| split; [reflexivity | reflexivity]]].
  rewrite Horig. unfold retrySrc, render. cbn [isRetrying currentSrc interpolate].
  rewrite andb_false_r. cbn [andb].
  exists ((if includesQuestionMark original then "&" else "?")
          ++ "_retry=" ++ now)%string.
  assert (Hne : ((if includesQuestionMark original then "&" else "?")
                 ++ "_retry=" ++ now)%string <> EmptyString)
    by (destruct (includesQuestionMark original); discriminate).
  split; [exact Hne | split].
  - destruct (String.eqb _ EmptyString) eqn:E; [| reflexivity].
    apply String.eqb_eq in E. destruct original; discriminate E.
  - intros H. apply append_longer in H. contradiction.
Qed.

Lemma timer_forces_reload_witness :
  let p := plain "https://example.com/image.jpg" in
  isRetrying (fire 1 "1700000001000" (final p [EvError])) = false
  /\ isPending 1 (host (fire 1 "1700000001000" (final p [EvError]))) = false.
Proof.
  intros p.
  destruct (timer_forces_reload p (final p [EvError]) 1 "1700000001000"
              "https://example.com/image.jpg" eq_refl eq_refl)
    as (Hwait & _ & Hgone & _).
  split; assumption.
Defined.

End RetryImageLifeFacts.

(** ** The hook and the component side by side *)

Module HookScheduleFacts.

Import Timers Retry RetryObservers.
Import UseImageRetry.

Lemma hook_step_shape (c : RetryConfig) (st : State) (ev : Event) :
  notReset ev = true ->
  let st1 := fst (step c st ev) in
  let e1 := snd (step c st ev) in
  (attempts st1 = attempts st /\ e1 = []
   /\ (asksRetry ev = false
       \/ maxRetries (finalConfig c) <= attempts st + 1))
  \/ (attempts st1 = attempts st + 1
      /\ attempts st + 1 < maxRetries (finalConfig c)
      /\ scheduledDelays e1
         = [calculateDelay (attempts st + 1) (retryDelay (finalConfig c))
              (exponentialBackoff (finalConfig c)) (maxDelay (finalConfig c))]
      /\ asksRetry ev = true).
Proof.
  destruct ev as [err | | | | id now]; intros Hs; try discriminate;
    cbn [step].
  - unfold handleError, retry, setError, setTimeout. cbn [attempts host].
    destruct (maxRetries (finalConfig c) <=? attempts st + 1) eqn:E.
    + left. apply Z.leb_le in E. cbn. auto.
    + right. apply Z.leb_gt in E. cbn. auto.
  - left. cbn. auto.
  - unfold retry, setTimeout.
    destruct (maxRetries (finalConfig c) <=? attempts st + 1) eqn:E.
    + left. apply Z.leb_le in E. cbn. auto.
    + right. apply Z.leb_gt in E. cbn. auto.
  - left. unfold fire. destruct (isPending id (host st)); cbn; auto.
Qed.

Lemma hook_run_schedule (c : RetryConfig) (evs : list Event) :
  forall st,
    forallb notReset evs = true ->
    let st' := fst (run c st evs) in
    let es := snd (run c st evs) in
    attempts st'
    = Z.max (attempts st)
        (Z.min (attempts st + Z.of_nat (asked evs))
           (maxRetries (finalConfig c) - 1))
    /\ scheduledDelays es
       = delaysFrom (finalConfig c) (attempts st)
           (Z.to_nat (attempts st' - attempts st)).
Proof.
  induction evs as [| ev rest IH]; intros st Hall; cbn [run fst snd].
  - unfold asked. cbn [filter List.length scheduledDelays].
    replace (Z.to_nat (attempts st - attempts st)) with 0%nat by lia.
    split; [lia | reflexivity].
  - cbn [forallb] in Hall. apply andb_prop in Hall as [Hev Hrest].
    pose proof (hook_step_shape c st ev Hev) as Hshape.
    destruct (step c st ev) as [st1 e1]. cbn [fst snd] in *.
    specialize (IH st1 Hrest). cbv zeta in IH.
    destruct (run c st1 rest) as [st2 e2]. cbn [fst snd] in *.
    destruct IH as (Hatt & Hsched).
    rewrite RetryImageFacts.scheduledDelays_app.
    unfold asked in *. cbn [filter].
    destruct Hshape as [(Ha & -> & Hwhy) | (Ha & Hlt & Hs & Hask)];
      rewrite Ha in *.
    + cbn [scheduledDelays app]. split; [| exact Hsched].
      destruct Hwhy as [Hno | Hfull].
      * rewrite Hno. exact Hatt.
      * destruct (asksRetry ev); cbn [List.length]; lia.
    + rewrite Hask. cbn [List.length]. split; [lia |].
      rewrite Hs, Hsched.
      replace (Z.to_nat (attempts st2 - attempts st))
        with (S (Z.to_nat (attempts st2 - (attempts st + 1)))) by lia.
      rewrite RetryScheduleFacts.delaysFrom_next. reflexivity.
Qed.

(** Between resets the hook's [attempts] counts the retry timers it has
    started: it is the number of retries asked for, capped at
    [maxRetries - 1], the k-th timer has the delay [calculateDelay k], and for
    a [maxRetries] of at least 1 the count stays below [maxRetries]. *)
Theorem hook_attempts_count_timers (c : RetryConfig) (initialSrc : string)
    (evs : list Event) (Hevs : forallb notReset evs = true) :
  let st := fst (run c (mount initialSrc) evs) in
  attempts st
  = Z.max 0 (Z.min (Z.of_nat (asked evs)) (maxRetries (finalConfig c) - 1))
  /\ scheduledDelays (snd (run c (mount initialSrc) evs))
     = map (fun i =>
              calculateDelay (1 + Z.of_nat i) (retryDelay (finalConfig c))
                (exponentialBackoff (finalConfig c))
                (maxDelay (finalConfig c)))
           (seq 0 (Z.to_nat (attempts st)))
  /\ (1 <= maxRetries (finalConfig c) ->
      attempts st < maxRetries (finalConfig c)).
Proof.
  pose proof (hook_run_schedule c evs (mount initialSrc) Hevs)
    as (Hatt & Hsched).
  cbv zeta. cbn [mount attempts] in Hatt, Hsched.
  rewrite Z.sub_0_r in Hsched.
  split; [exact Hatt | split; [exact Hsched | lia]].
Qed.

Lemma hook_attempts_count_timers_witness :
  attempts
    (fst (run noConfig (mount "https://example.com/image.jpg")
            [EvHandleError None; EvTimer 1 "1"; EvHandleError None;
             EvHandleError None; EvRetry]))
  = Z.max 0 (Z.min 4 (3 - 1)).
Proof.
  apply (proj1 (hook_attempts_count_timers noConfig
                  "https://example.com/image.jpg"
                  [EvHandleError None; EvTimer 1 "1"; EvHandleError None;
                   EvHandleError None; EvRetry] eq_refl)).
Defined.

(** The hook and the component back off alike: under the same
    configuration, after as many retries asked of the hook as failures
    reported to the component, both have started the same timers with the
    same delays. *)
Theorem hook_and_component_schedule_alike
    (p : RetryImage.Props) (evs : list RetryImage.Event)
    (initialSrc : string) (hevs : list Event)
    (Hevs : forallb RetryImage.sameSource evs = true)
    (Hload : RetryImage.loadingComponent p = false)
    (Hhevs : forallb notReset hevs = true)
    (Hsame : asked hevs = failures evs) :
  scheduledDelays (snd (run (RetryImage.retryConfig p) (mount initialSrc) hevs))
  = scheduledDelays (RetryImage.effects p evs).
Proof.
  pose proof (hook_run_schedule (RetryImage.retryConfig p) hevs
                (mount initialSrc) Hhevs) as (Hatt & Hsched).
  pose proof (RetryScheduleFacts.run_schedule evs p (RetryImage.mount p) Hevs)
    as (_ & Hcomp & _ & Hcount).
  cbv zeta in *. specialize (Hcount Hload).
  cbn [mount attempts RetryImage.mount RetryImage.attempts]
    in Hatt, Hsched, Hcomp, Hcount.
  unfold RetryImage.effects. rewrite Hsched, Hcomp.
  change (RetryImage.config p) with (finalConfig (RetryImage.retryConfig p)).
  f_equal. unfold retried. rewrite Hatt, Hcount, Hsame. lia.
Qed.

Lemma hook_and_component_schedule_alike_witness :
  scheduledDelays
    (snd (run noConfig (mount "https://example.com/image.jpg")
            [EvHandleError None; EvHandleError None; EvHandleError None]))
  = scheduledDelays
      (RetryImage.effects (RetryImage.plain "https://example.com/image.jpg")
         [RetryImage.EvError; RetryImage.EvError; RetryImage.EvError]).
Proof.
  apply (hook_and_component_schedule_alike
           (RetryImage.plain "https://example.com/image.jpg")
           [RetryImage.EvError; RetryImage.EvError; RetryImage.EvError]
           "https://example.com/image.jpg"
           [EvHandleError None; EvHandleError None; EvHandleError None]
           eq_refl eq_refl eq_refl eq_refl).
Defined.

End HookScheduleFacts.

(** ** The helpers of [utils.ts] *)

Module UtilsFacts.

Import Utils.

(** The cases of the test-suite. *)
Example extensions_of_the_tests :
  hasImageExtension "https://example.com/logo.PNG" = true
  /\ hasImageExtension "/img.webp?v=1#top" = true
  /\ hasImageExtension "/document.pdf" = false
  /\ hasImageExtension "data:image/png;base64,abc" = true
  /\ getImageExtension "https://example.com/logo.PNG" = ".png"%string
  /\ getImageExtension "/image.jpg?size=large" = ".jpg"%string
  /\ getImageExtension "data:image/jpeg;base64,xyz" = ".jpeg"%string
  /\ getImageExtension "/no-extension" = EmptyString.
Proof. repeat split. Qed.

Lemma extension_nonempty (ext : string) :
  In ext IMAGE_EXTENSIONS ->
  exists w, w <> EmptyString /\ ext = ("." ++ w)%string.
Proof.
  unfold IMAGE_EXTENSIONS. cbn [In].
  intros H.
  repeat (destruct H as [<- | H];
          [eexists; split; [| reflexivity]; discriminate |]).
  destruct H.
Qed.

(** [getImageExtension] and [hasImageExtension] agree: an extension is only
    ever reported for a URL that [hasImageExtension] accepts; for a URL that
    is not a data URL every accepted URL gets an extension, which is one of
    [IMAGE_EXTENSIONS] and ends the lower-cased path; and whatever is
    reported is empty or a dot followed by something. *)
Theorem getImageExtension_agrees_with_hasImageExtension (url : string) :
  (getImageExtension url <> EmptyString -> hasImageExtension url = true)
  /\ (startsWith url "data:image/" = false ->
      hasImageExtension url = true ->
      In (getImageExtension url) IMAGE_EXTENSIONS
      /\ endsWith (cleanUrl url) (getImageExtension url) = true)
  /\ (getImageExtension url = EmptyString
      \/ exists w, w <> EmptyString
                   /\ getImageExtension url = ("." ++ w)%string).
Proof.
  unfold getImageExtension, hasImageExtension.
  destruct (String.eqb url EmptyString).
  { repeat split; try congruence; try discriminate. now left. }
  destruct (startsWith url "data:image/") eqn:D.
  { split; [reflexivity | split; [discriminate |]].
    unfold matchDataImage.
    destruct (stripPrefix "data:image/" url) as [rest |]; [| now left].
    destruct (String.eqb (wordPrefix rest) EmptyString) eqn:W; [now left |].
    right. exists (wordPrefix rest). split; [| reflexivity].
    now apply String.eqb_neq. }
  destruct (find (fun ext => endsWith (cleanUrl url) ext) IMAGE_EXTENSIONS)
    as [found |] eqn:F.
  - apply find_some in F as [Hin Hends].
    split; [| split].
    + intros _. apply existsb_exists. exists found. auto.
    + intros _ _. auto.
    + right. apply extension_nonempty. exact Hin.
  - split; [congruence | split; [| now left]].
    intros _ H. apply existsb_exists in H as (ext & Hin & Hends).
    pose proof (find_none _ _ F ext Hin) as Hno. cbn in Hno. congruence.
Qed.

Lemma append_empty (s : string) : (s ++ "")%string = s.
Proof.
  induction s as [| a s IH]; cbn; [reflexivity | now rewrite IH].
Qed.

Lemma toLowerCase_append (a b : string) :
  toLowerCase (a ++ b) = (toLowerCase a ++ toLowerCase b)%string.
Proof.
  induction a as [| c a IH]; cbn; [reflexivity | now rewrite IH].
Qed.

Lemma lowerChar_keeps_separators (a : ascii) :
  Ascii.eqb (lowerChar a) "?" = Ascii.eqb a "?"
  /\ Ascii.eqb (lowerChar a) "#" = Ascii.eqb a "#".
Proof.
  destruct a as [[] [] [] [] [] [] [] []]; split; reflexivity.
Qed.

Lemma occurs_toLowerCase (s : string) :
  occurs "?" (toLowerCase s) = occurs "?" s
  /\ occurs "#" (toLowerCase s) = occurs "#" s.
Proof.
  induction s as [| a s [IHq IHh]]; cbn; [split; reflexivity |].
  destruct (lowerChar_keeps_separators a) as [-> ->].
  now rewrite IHq, IHh.
Qed.

Lemma beforeFirst_append (c : ascii) (l r : string) :
  occurs c l = false ->
  beforeFirst c (l ++ r) = (l ++ beforeFirst c r)%string.
Proof.
  induction l as [| a l IH]; cbn; [reflexivity |].
  intros H. apply orb_false_elim in H as [Ha Hl].
  rewrite Ha. now rewrite IH.
Qed.

Lemma beforeFirst_absent (c : ascii) (l : string) :
  occurs c l = false -> beforeFirst c l = l.
Proof.
  intros H. rewrite <- (append_empty l) at 1.
  rewrite beforeFirst_append by exact H. cbn. apply append_empty.
Qed.

Lemma cleanUrl_cut (url rest : string) (sep : ascii) :
  sep = "?"%char \/ (sep = "#"%char /\ occurs "#" url = false) ->
  occurs "?" url = false ->
  cleanUrl (url ++ String sep rest) = cleanUrl url.
Proof.
  intros Hsep Hq. unfold cleanUrl.
  destruct (occurs_toLowerCase url) as [Lq Lh].
  rewrite toLowerCase_append. cbn [toLowerCase].
  rewrite beforeFirst_append by now rewrite Lq.
  rewrite (beforeFirst_absent "?" (toLowerCase url)) by now rewrite Lq.
  destruct Hsep as [-> | [-> Hh]]; cbn.
  - now rewrite append_empty.
  - rewrite beforeFirst_append by now rewrite Lh.
    cbn. rewrite append_empty.
    symmetry. apply beforeFirst_absent. now rewrite Lh.
Qed.

Lemma prefix_cut (p u rest : string) (sep : ascii) :
  occurs sep p = false ->
  String.prefix p (u ++ String sep rest) = String.prefix p u.
Proof.
  revert u. induction p as [| a p IH]; intros u H; cbn; [now destruct u |].
  cbn in H. apply orb_false_elim in H as [Ha Hp].
  destruct u as [| b u]; cbn.
  - destruct (ascii_dec a sep) as [-> | _]; [| reflexivity].
    rewrite Ascii.eqb_refl in Ha. discriminate.
  - destruct (ascii_dec a b); [now apply IH | reflexivity].
Qed.

Lemma stripPrefix_cut (p u rest : string) (sep : ascii) :
  occurs sep p = false ->
  stripPrefix p (u ++ String sep rest)
  = match stripPrefix p u with
    | Some r => Some (r ++ String sep rest)%string
    | None => None
    end.
Proof.
  revert u. induction p as [| a p IH]; intros u H; cbn; [reflexivity |].
  cbn in H. apply orb_false_elim in H as [Ha Hp].
  destruct u as [| b u]; cbn.
  - now rewrite Ha.
  - destruct (Ascii.eqb a b); [now apply IH | reflexivity].
Qed.

Lemma wordPrefix_cut (r rest : string) (sep : ascii) :
  isWordChar sep = false ->
  wordPrefix (r ++ String sep rest) = wordPrefix r.
Proof.
  intros H. induction r as [| a r IH]; cbn.
  - now rewrite H.
  - destruct (isWordChar a); [now rewrite IH | reflexivity].
Qed.

Lemma append_not_empty (u rest : string) (sep : ascii) :
  String.eqb (u ++ String sep rest) EmptyString = false.
Proof.
  now destruct u.
Qed.

(** A query string or a fragment does not change the verdict: with no [?]
    in the URL so far (and, for a fragment, no [#]), appending [?...] or
    [#...] leaves both [hasImageExtension] and [getImageExtension] as they
    were. *)
Theorem query_and_fragment_are_ignored (url rest : string) (sep : ascii)
    (Hsep : sep = "?"%char \/ (sep = "#"%char /\ occurs "#" url = false))
    (Hq : occurs "?" url = false) :
  hasImageExtension (url ++ String sep rest) = hasImageExtension url
  /\ getImageExtension (url ++ String sep rest) = getImageExtension url.
Proof.
  assert (Hword : isWordChar sep = false)
    by (destruct Hsep as [-> | [-> _]]; reflexivity).
  assert (Hocc : occurs sep "data:image/" = false)
    by (destruct Hsep as [-> | [-> _]]; reflexivity).
  unfold hasImageExtension, getImageExtension, startsWith.
  rewrite append_not_empty, (prefix_cut _ url rest sep Hocc),
    (cleanUrl_cut url rest sep Hsep Hq).
  unfold matchDataImage.
  rewrite (stripPrefix_cut _ url rest sep Hocc).
  destruct (String.eqb url EmptyString) eqn:E.
  - apply String.eqb_eq in E. subst url. split; reflexivity.
  - destruct (String.prefix "data:image/" url); [| split; reflexivity].
    split; [reflexivity |].
    destruct (stripPrefix "data:image/" url) as [r |]; [| reflexivity].
    now rewrite (wordPrefix_cut r rest sep Hword).
Qed.

Lemma query_and_fragment_are_ignored_witness :
  hasImageExtension ("/photo.png" ++ String "#" "section")
  = hasImageExtension "/photo.png"
  /\ getImageExtension ("/photo.png" ++ String "#" "section")
     = getImageExtension "/photo.png".
Proof.
  apply (query_and_fragment_are_ignored "/photo.png" "section" "#").
  - right. split; reflexivity.
  - reflexivity.
Defined.

Lemma ToInt32_range (x : Z) : - 2 ^ 31 <= ToInt32 x < 2 ^ 31.
Proof.
  unfold ToInt32.
  pose proof (Z.mod_pos_bound (x + 2 ^ 31) (2 ^ 32) ltac:(lia)). lia.
Qed.

Lemma charCode_range (a : ascii) : 0 <= charCode a <= 255.
Proof.
  unfold charCode. pose proof (nat_ascii_bounded a). lia.
Qed.

Lemma hashFrom_bound (str : string) :
  forall hash,
    Z.abs (hashFrom hash str)
    <= Z.abs hash + Z.of_nat (String.length str) * (2 ^ 31 + 255).
Proof.
  induction str as [| a str IH]; intros hash; cbn [hashFrom String.length].
  - lia.
  - specialize (IH (charCode a + (shiftLeft hash 5 - hash))).
    pose proof (charCode_range a).
    pose proof (ToInt32_range (Z.shiftl (ToInt32 hash) 5)).
    unfold shiftLeft in *. lia.
Qed.

(** The colour of a non-empty string is [hslToHex] of a hue from 0 to 359,
    a saturation from 65 to 84 and a lightness from 45 to 59, whatever the
    string.  The hash behind it grows by less than [2 ^ 31 + 256] per
    character, so for strings of up to four million characters it stays an
    integer that a JavaScript number holds exactly. *)
Theorem generated_color_is_in_range (hslToHex : Z -> Z -> Z -> string)
    (str : string) (Hne : str <> EmptyString) :
  (exists hue saturation lightness,
      0 <= hue < 360 /\ 65 <= saturation < 85 /\ 45 <= lightness < 60
      /\ generateColorFromString hslToHex str
         = hslToHex hue saturation lightness)
  /\ Z.abs (hashFrom 0 str)
     <= Z.of_nat (String.length str) * (2 ^ 31 + 255)
  /\ (Z.of_nat (String.length str) <= 4000000 ->
      Z.abs (hashFrom 0 str) < 2 ^ 53).
Proof.
  pose proof (hashFrom_bound str 0) as Hb. cbn [Z.abs] in Hb.
  split; [| split; [lia | intros Hlen; lia]].
  unfold generateColorFromString.
  apply String.eqb_neq in Hne. rewrite Hne.
  eexists _, _, _. split; [| split; [| split; [| reflexivity]]].
  - pose proof (Z.rem_bound_abs (hashFrom 0 str) 360 ltac:(lia)). lia.
  - pose proof (Z.rem_bound_pos (Z.abs (shiftRight (hashFrom 0 str) 8)) 20
                  ltac:(lia) ltac:(lia)). lia.
  - pose proof (Z.rem_bound_pos (Z.abs (shiftRight (hashFrom 0 str) 16)) 15
                  ltac:(lia) ltac:(lia)). lia.
Qed.

Lemma generated_color_is_in_range_witness :
  exists hue saturation lightness,
    0 <= hue < 360 /\ 65 <= saturation < 85 /\ 45 <= lightness < 60
    /\ generateColorFromString (fun _ _ _ => "#000000"%string) "test-user"
       = "#000000"%string.
Proof.
  destruct (generated_color_is_in_range (fun _ _ _ => "#000000"%string)
              "test-user" ltac:(discriminate))
    as ((h & s & l & Hh & Hs & Hl & _) & _).
  exists h, s, l. repeat split; try tauto.
Defined.

(** The empty string has the default colour.  The shift wraps at 32 bits
    while the sum does not, so the hash of a string of ten characters can
    already lie outside the 32-bit range. *)
Example hashes :
  generateColorFromString (fun h s l => EmptyString) "" = "#6366f1"%string
  /\ hashFrom 0 "ab" = 3105
  /\ hashFrom 0 "alice" = 92903040
  /\ hashFrom 0 "any-string" = -6610776302.
Proof. repeat split. Qed.

End UtilsFacts.
